(** * Portfolio holdings reconstruction (jinfund/portfolio/holdings.py)

    A shallow embedding of [Portfolio.build], [Portfolio.stocksplits] and
    [Portfolio.plot] together with the pandas/numpy operations they call.

    Conventions of the embedding
    - a date is its day ordinal, a [Z];
    - a float64 entry of a column is a [cell]: [None] is NaN, [Some q] an
      exact rational [q : Qc] (rounding error of binary floating point is
      not modelled);
    - a Date-indexed one-column frame (or named Series) is the list of
      its rows [(date, cell)] in index order; duplicated index labels are
      duplicated rows;
    - [print] appends to a log, exceptions are values of [exn]. *)

From Stdlib Require Import ZArith QArith Qcanon Qround List Bool String Ascii Lia Lqa.
From Stdlib Require Import Sorting.Sorted Sorting.Permutation FinFun OrdersEx.
Import ListNotations.
Open Scope Z_scope.

Abbreviation date := Z.
Definition cell := option Qc.

(** ** Numbers *)

Definition Qc_eqb (x y : Qc) : bool := Qeq_bool x y.
Definition Qc_ltb (x y : Qc) : bool :=
  match (x ?= y)%Qc with Lt => true | _ => false end.

(** [np.ceil] on one float. *)
Definition ceilQc (q : Qc) : Qc := Q2Qc (inject_Z (Qceiling q)).

Definition cell_mul (a b : cell) : cell :=
  match a, b with
  | Some x, Some y => Some (x * y)%Qc
  | _, _ => None
  end.

(** [Series.replace(0, np.nan)] on one entry. *)
Definition replace0 (c : cell) : cell :=
  match c with
  | Some x => if Qc_eqb x 0 then None else Some x
  | None => None
  end.

(** [Series.fillna(v)] on one entry. *)
Definition fillna (v : Qc) (c : cell) : cell :=
  match c with
  | None => Some v
  | Some _ => c
  end.

Definition np_ceil (c : cell) : cell := option_map ceilQc c.

Definition notna (c : cell) : bool :=
  match c with Some _ => true | None => false end.

Definition sumv (l : list Qc) : Qc := fold_right Qcplus 0%Qc l.
Definition prodv (l : list Qc) : Qc := fold_right Qcmult 1%Qc l.

(** ** The pandas operations used by the module *)

Module pd.

Definition Series := list (date * cell).

(** Sorted, duplicate-free list of join keys. *)
Fixpoint insert_key (k : date) (ks : list date) : list date :=
  match ks with
  | [] => [k]
  | k' :: ks' =>
      if k <? k' then k :: ks
      else if k =? k' then ks
      else k' :: insert_key k ks'
  end.

Definition sorted_keys (ks : list date) : list date :=
  fold_right insert_key [] ks.

Definition rows_at {A} (k : date) (l : list (date * A)) : list A :=
  map snd (filter (fun r => fst r =? k) l).

(** The rows an outer join produces for one key: the product of the
    matching rows, an unmatched side being filled with NaN. *)
Definition join_group {A B} (k : date) (ls : list A) (rs : list B)
  : list (date * option A * option B) :=
  match ls, rs with
  | [], _ => map (fun b => (k, None, Some b)) rs
  | _, [] => map (fun a => (k, Some a, None)) ls
  | _, _ => flat_map (fun a => map (fun b => (k, Some a, Some b)) rs) ls
  end.

(** [pd.merge_ordered(left, right, on='Date')]: [how] defaults to
    ['outer'] and [fill_method] to [None]; the result is ordered by key. *)
Definition merge_ordered {A B} (left : list (date * A)) (right : list (date * B))
  : list (date * option A * option B) :=
  flat_map (fun k => join_group k (rows_at k left) (rows_at k right))
           (sorted_keys (map fst left ++ map fst right)).

(** [cumsum()] with the default [skipna=True]: NaN entries stay NaN and
    do not reset the running sum. *)
Fixpoint cumsum_from (acc : Qc) (l : list cell) : list cell :=
  match l with
  | [] => []
  | None :: t => None :: cumsum_from acc t
  | Some v :: t => Some (acc + v)%Qc :: cumsum_from (acc + v)%Qc t
  end.
Definition cumsum : list cell -> list cell := cumsum_from 0%Qc.

Fixpoint cumprod_from (acc : Qc) (l : list cell) : list cell :=
  match l with
  | [] => []
  | None :: t => None :: cumprod_from acc t
  | Some v :: t => Some (acc * v)%Qc :: cumprod_from (acc * v)%Qc t
  end.
Definition cumprod : list cell -> list cell := cumprod_from 1%Qc.

(** [ffill()] / [fillna(method='ffill')]. *)
Fixpoint ffill_from (last : cell) (l : list cell) : list cell :=
  match l with
  | [] => []
  | None :: t => last :: ffill_from last t
  | Some v :: t => Some v :: ffill_from (Some v) t
  end.
Definition ffill : list cell -> list cell := ffill_from None.

(** A column operation applied to a one-column frame; the index is kept. *)
Definition on_column (f : list cell -> list cell) (s : Series) : Series :=
  combine (map fst s) (f (map snd s)).

(** [df[df['Volume'].isna() == False]] *)
Definition dropna (s : Series) : Series :=
  filter (fun r => notna (snd r)) s.

(** [Series.first_valid_index()] *)
Definition first_valid_index (s : Series) : option date :=
  option_map fst (find (fun r => notna (snd r)) s).

(** [df.loc[start:]] on a frame whose index labels are distinct;
    [df.loc[None:]] is the whole frame. *)
Fixpoint drop_until (d : date) (s : Series) : Series :=
  match s with
  | [] => []
  | r :: t => if fst r =? d then s else drop_until d t
  end.
Definition loc_from (start : option date) (s : Series) : Series :=
  match start with
  | None => s
  | Some d => drop_until d s
  end.

(** Alignment of a Series on the label [d] of another index: the entry
    of [s] at [d], NaN when [s] has no such label.  The labels of [s]
    are distinct wherever the module aligns. *)
Definition reindex (s : Series) (d : date) : cell :=
  match find (fun r => fst r =? d) s with
  | Some r => snd r
  | None => None
  end.

End pd.

(** ** Output and exceptions *)

Inductive exn : Type :=
| TypeError
| IndexError
| OtherError (name : string).

Inductive outcome (A : Type) : Type :=
| Ok (a : A)
| Raise (e : exn).
Arguments Ok {A} a.
Arguments Raise {A} e.

(** A computation prints to the log and either returns or raises. *)
Definition M (A : Type) : Type := list string -> outcome A * list string.

Definition ret {A} (a : A) : M A := fun log => (Ok a, log).
Definition raise {A} (e : exn) : M A := fun log => (Raise e, log).
Definition print (s : string) : M unit := fun log => (Ok tt, log ++ [s]).
Definition bind {A B} (m : M A) (k : A -> M B) : M B :=
  fun log =>
    match m log with
    | (Ok a, log') => k a log'
    | (Raise e, log') => (Raise e, log')
    end.

Notation "x <- m ;; k" := (bind m (fun x => k))
  (at level 61, m at next level, right associativity).
Notation "m ;;; k" := (bind m (fun _ => k))
  (at level 61, right associativity).

(** ** Data of the module *)

(** One row of the ledger [Trades().all], indexed by (Date, Ticker). *)
Record TransactionEvent : Type := mkEvent {
  ev_date : date;
  ev_ticker : string;
  ev_volume : Qc;
  ev_price : Qc
}.

(** One row of [yf.Ticker(...).actions]. *)
Record Action : Type := mkAction {
  act_date : date;
  Dividends : Qc;
  Stock_Splits : Qc
}.

(** One row of [df_pfolio] as the loop over tickers builds it. *)
Record TickerRow : Type := mkTickerRow {
  row_date : date;
  row_ticker : string;
  row_volume : cell;
  row_close : cell
}.

(** One row of the portfolio frame returned by [build], indexed by
    (Date, Ticker). *)
Record HoldingRow : Type := mkRow {
  Date : date;
  Ticker : string;
  Volume : cell;
  Close : cell;
  Value : cell
}.

Definition CR : string := String (ascii_of_nat 13) EmptyString.
Definition LF : string := String (ascii_of_nat 10) EmptyString.

Module Portfolio.
Import pd.

(** Body of the [if] of [stocksplits]: lines 108-124. *)
Definition split_adjust (df : Series) (df_actions : list Action) : Series :=
  (* df['Stock Splits'] = df_actions['Stock Splits'].replace(0,np.nan) *)
  let splits : Series :=
    map (fun a => (act_date a, replace0 (Some (Stock_Splits a)))) df_actions in
  let df1 : list (date * cell * cell) :=
    map (fun r => (fst r, snd r, reindex splits (fst r))) df in
  (* df['Volume'] = df['Volume'].replace(0,np.nan) *)
  let df2 : list (date * cell * cell) :=
    map (fun r => (fst (fst r), replace0 (snd (fst r)), snd r)) df1 in
  (* df.loc[df['Volume'].first_valid_index():]['Stock Splits'].cumprod() *)
  let start := first_valid_index (map fst df2) in
  let stocksplit_cumulative : Series :=
    on_column cumprod
      (loc_from start (map (fun r => (fst (fst r), snd r)) df2)) in
  (* .fillna(method='ffill').fillna(1) *)
  let stocksplit_cumulative : Series :=
    on_column (map (fillna 1%Qc)) (on_column ffill stocksplit_cumulative) in
  (* df['Volume'] *= stocksplit_cumulative *)
  let df3 : list (date * cell * cell) :=
    map (fun r =>
           (fst (fst r),
            cell_mul (snd (fst r)) (reindex stocksplit_cumulative (fst (fst r))),
            snd r)) df2 in
  (* df['Volume'] = np.ceil(df['Volume']) *)
  let df4 : list (date * cell * cell) :=
    map (fun r => (fst (fst r), np_ceil (snd (fst r)), snd r)) df3 in
  (* df.drop(columns='Stock Splits') *)
  map fst df4.

(** [len(df_actions[df_actions['Stock Splits'] > 0]) > 0] *)
Definition has_split (df_actions : list Action) : bool :=
  (0 <? List.length (filter (fun a => Qc_ltb 0 (Stock_Splits a)) df_actions))%nat.

Section Build.

(** External collaborators and repository code outside this module. *)
Variable by_ticker_volume : string -> list (date * Qc).  (* self.t.by_ticker(ticker)['Volume'] *)
Variable date_list : date -> date -> list date.          (* datehandler.date_list *)
Variable close : string -> Series.                       (* yf.download(...)['Adj Close'][ticker] *)
Variable yf_actions : string -> outcome (list Action).   (* yf.Ticker(name).actions *)

Definition stocksplits (df : Series) (ticker : string) : M Series :=
  print (CR ++ "Checking " ++ ticker)%string ;;;
  match yf_actions (ticker ++ ".AX")%string with
  | Raise TypeError =>
      print (CR ++ "Something went wrong!")%string ;;; ret df
  | Raise e => raise e
  | Ok df_actions =>
      if has_split df_actions then ret (split_adjust df df_actions) else ret df
  end.

(** Lines 65-67: the daily quantity of one ticker. *)
Definition align_volumes (vol_df : list (date * Qc)) (p_dates : list date) : Series :=
  map (fun r => (fst (fst r), snd (fst r)))
      (merge_ordered vol_df (map (fun d => (d, tt)) p_dates)).

Definition daily_quantity (vol_df : list (date * Qc)) (p_dates : list date) : Series :=
  on_column ffill (on_column cumsum (align_volumes vol_df p_dates)).

Definition quantity_series (vol_df : list (date * Qc)) (p_dates : list date) : Series :=
  dropna (daily_quantity vol_df p_dates).

Definition join_cell (c : option cell) : cell :=
  match c with Some x => x | None => None end.

(** Line 73: merge with the close prices; rows are (Date, Volume, Close). *)
Definition merge_close (ticker_df : Series) (prices : Series) : list (date * cell * cell) :=
  map (fun r => (fst (fst r), join_cell (snd (fst r)), join_cell (snd r)))
      (merge_ordered ticker_df prices).

(** Body of the loop over tickers, lines 62-74. *)
Definition ticker_frame (p_dates : list date) (ticker : string)
  : M (list (date * cell * cell)) :=
  let vol_df := by_ticker_volume ticker in
  let ticker_df := quantity_series vol_df p_dates in
  ticker_df <- stocksplits ticker_df ticker ;;
  ret (merge_close ticker_df (close ticker)).

Definition with_ticker (ticker : string) (r : date * cell * cell) : TickerRow :=
  mkTickerRow (fst (fst r)) ticker (snd (fst r)) (snd r).

Fixpoint for_tickers (p_dates : list date) (tickers : list string)
         (df_pfolio : list TickerRow) : M (list TickerRow) :=
  match tickers with
  | [] => ret df_pfolio
  | ticker :: rest =>
      ticker_df <- ticker_frame p_dates ticker ;;
      for_tickers p_dates rest (df_pfolio ++ map (with_ticker ticker) ticker_df)
  end.

(** [sorted(set(...))] on ticker names. *)
Fixpoint insert_ticker (t : string) (ts : list string) : list string :=
  match ts with
  | [] => [t]
  | t' :: ts' =>
      match String.compare t t' with
      | Lt => t :: ts
      | Eq => ts
      | Gt => t' :: insert_ticker t ts'
      end
  end.
Definition sorted_set (ts : list string) : list string :=
  fold_right insert_ticker [] ts.

(** [sort_index()] on the (Date, Ticker) index: a stable sort. *)
Definition index_leb (a b : TickerRow) : bool :=
  (row_date a <? row_date b)
  || ((row_date a =? row_date b) && String.leb (row_ticker a) (row_ticker b)).

Fixpoint insert_row (r : TickerRow) (l : list TickerRow) : list TickerRow :=
  match l with
  | [] => [r]
  | r' :: l' => if index_leb r r' then r :: l else r' :: insert_row r l'
  end.
Definition sort_index (l : list TickerRow) : list TickerRow :=
  fold_right insert_row [] l.

(** [df.assign(Value = lambda x: x['Volume'] * x['Close'])] *)
Definition assign_value (r : TickerRow) : HoldingRow :=
  mkRow (row_date r) (row_ticker r) (row_volume r) (row_close r)
        (cell_mul (row_volume r) (row_close r)).

Definition build (trades : list TransactionEvent) (today : date)
  : M (list HoldingRow) :=
  match trades with
  | [] => raise IndexError                       (* self.trades.index[0][0] *)
  | first :: _ =>
      let p_inception := ev_date first in
      let p_dates := date_list p_inception today in
      let tickers := sorted_set (map ev_ticker trades) in
      match p_dates with
      | [] => raise IndexError                   (* p_dates[0] *)
      | _ :: _ =>
          df_pfolio <- for_tickers p_dates tickers [] ;;
          let df_pfolio := map assign_value (sort_index df_pfolio) in
          print (LF ++ "Portfolio successfully built")%string ;;;
          ret df_pfolio
      end
  end.

End Build.
End Portfolio.

(** ** Repository code outside [holdings.py] *)

Module datehandler.

(** Modelled from the spec: [datehandler.date_list] is not part of the
    sources; the spec describes it as the dense ordered sequence of
    calendar dates from the start date to the end date inclusive. *)
Definition date_list (start stop : date) : list date :=
  map (fun i => start + Z.of_nat i) (seq 0 (Z.to_nat (stop - start + 1))).

End datehandler.

Module Trades.
Import pd.

(** Modelled from the spec: [Trades.by_ticker] is not part of the
    sources; the spec has the events of one instrument date-ordered and
    same-date signed volumes aggregated into one net volume per date by
    summation. *)
Definition by_ticker_volume (all : list TransactionEvent) (ticker : string)
  : list (date * Qc) :=
  let events := filter (fun e => String.eqb (ev_ticker e) ticker) all in
  map (fun d => (d, sumv (map ev_volume (filter (fun e => ev_date e =? d) events))))
      (sorted_keys (map ev_date events)).

End Trades.

(** ** [Portfolio.plot] *)

(** A float that may be infinite: the quotient column of [plot]. *)
Inductive xfloat : Type :=
| XNaN
| XInf (negative : bool)
| XFin (q : Qc).

(** One row of [plot_df], indexed by Date. *)
Record PlotRow : Type := mkPlotRow {
  plot_date : date;
  plot_value : cell;      (* column 'Value' *)
  plot_cost : cell;       (* column 'Cost' *)
  pl_line : cell;
  pl_pct : xfloat
}.

(** What a call of [plot] leaves behind: the columns handed to
    [DataFrame.plot()] and the frame returned. *)
Record PlotResult : Type := mkPlotResult {
  drawn : list string;
  frame : list PlotRow
}.

Module Plot.
Import pd.

(** [Series.sum()] skips NaN; an empty or all-NaN group sums to 0. *)
Definition skipna (l : list cell) : list Qc :=
  flat_map (fun c => match c with Some q => [q] | None => [] end) l.

(** [df.groupby('Date').sum()[col]]: one row per date, in date order. *)
Definition groupby_sum {R} (key : R -> date) (col : R -> cell) (rows : list R) : Series :=
  map (fun d => (d, Some (sumv (skipna (map col (filter (fun r => key r =? d) rows))))))
      (sorted_keys (map key rows)).

(** [s[s > 0]]; a NaN compares false. *)
Definition positive (c : cell) : bool :=
  match c with Some q => Qc_ltb 0 q | None => false end.

(** The forward fill of [merge_ordered(..., fill_method='ffill')]: a row
    without partner takes the last partner row seen so far. *)
Fixpoint ffill_indexer {A} (last : option A) (l : list (option A)) : list (option A) :=
  match l with
  | [] => []
  | None :: t => last :: ffill_indexer last t
  | Some a :: t => Some a :: ffill_indexer (Some a) t
  end.

Definition merge_ordered_ffill {A B} (left : list (date * A)) (right : list (date * B))
  : list (date * option A * option B) :=
  let merged := merge_ordered left right in
  combine (combine (map (fun r => fst (fst r)) merged)
                   (ffill_indexer None (map (fun r => snd (fst r)) merged)))
          (ffill_indexer None (map snd merged)).

Definition cell_sub (a b : cell) : cell :=
  match a, b with
  | Some x, Some y => Some (x - y)%Qc
  | _, _ => None
  end.

(** Float division: a zero divisor gives an infinity, or NaN for 0/0. *)
Definition truediv (a b : cell) : xfloat :=
  match a, b with
  | Some x, Some y =>
      if Qc_eqb y 0
      then (if Qc_eqb x 0 then XNaN else XInf (Qc_ltb x 0))
      else XFin (x / y)%Qc
  | _, _ => XNaN
  end.

Definition join_cell (c : option cell) : cell :=
  match c with Some x => x | None => None end.

(** Lines 130-140: the frame of daily value, cost and profit. *)
Definition plot_df (holdings : list HoldingRow) (trades : list TransactionEvent)
  : list PlotRow :=
  (* value_df = self.holdings.groupby('Date').sum()['Value'] *)
  let value_df := groupby_sum Date Value holdings in
  (* value_df = value_df[value_df > 0] *)
  let value_df := filter (fun r => positive (snd r)) value_df in
  (* cost_df = self.trades.assign(Value = Volume * EffectivePrice) *)
  (* cost_df = cost_df.groupby('Date').sum()['Value'].cumsum() *)
  let cost_df :=
    on_column cumsum
      (groupby_sum ev_date (fun e => Some (ev_volume e * ev_price e)%Qc) trades) in
  (* pd.merge_ordered(value_df, cost_df, on='Date', fill_method='ffill') *)
  let merged := merge_ordered_ffill value_df cost_df in
  map (fun r =>
         let value := join_cell (snd (fst r)) in
         let cost := join_cell (snd r) in
         let line := cell_sub value cost in
         mkPlotRow (fst (fst r)) value cost line (truediv line cost))
      merged.

(** [plot]: the columns drawn depend on [view]; with any other [view]
    the name [cols] is unbound when the frame is drawn. *)
Definition plot (holdings : list HoldingRow) (trades : list TransactionEvent)
           (view : string) : outcome PlotResult :=
  let df := plot_df holdings trades in
  if String.eqb view "default" then Ok (mkPlotResult ["Value"; "Cost"]%string df)
  else if String.eqb view "pl" then Ok (mkPlotResult ["pl_line"]%string df)
  else if String.eqb view "pl_pct" then Ok (mkPlotResult ["pl_pct"]%string df)
  else Raise (OtherError "UnboundLocalError").

End Plot.

(** ** Vocabulary of the statements *)

(** The entry of a keyed list at date [k], if any. *)
Definition lookup {A} (k : date) (l : list (date * A)) : option A :=
  option_map snd (find (fun r => fst r =? k) l).

(** Net volumes of the trade dates up to and including [d]. *)
Definition traded_upto (vol : list (date * Qc)) (d : date) : list Qc :=
  map snd (filter (fun r => fst r <=? d) vol).

(** Their sum, undefined when there is none. *)
Definition total (l : list Qc) : cell :=
  match l with
  | [] => None
  | _ :: _ => Some (sumv l)
  end.

Definition quantity_upto (vol : list (date * Qc)) (d : date) : cell :=
  total (traded_upto vol d).

(** [d] lies strictly before every key of [ks]. *)
Definition below (ks : list date) (d : date) : bool :=
  forallb (fun k => d <? k) ks.

(** Decidable equality of frames, used to evaluate the model. *)
Definition cell_eqb (a b : cell) : bool :=
  match a, b with
  | Some x, Some y => Qc_eqb x y
  | None, None => true
  | _, _ => false
  end.

Fixpoint series_eqb (a b : pd.Series) : bool :=
  match a, b with
  | [], [] => true
  | (d, x) :: a', (e, y) :: b' => (d =? e) && cell_eqb x y && series_eqb a' b'
  | _, _ => false
  end.

Definition Z2Qc (n : Z) : Qc := Q2Qc (inject_Z n).

(** Membership in a frame, decided by evaluation. *)
Definition has_row (d : date) (c : cell) (s : pd.Series) : bool :=
  existsb (fun r => (fst r =? d) && cell_eqb (snd r) c) s.

(** The split factor announced on date [d]: 1 when the actions table has
    no row for [d] or records no split (0) there. *)
Definition split_factor (df_actions : list Action) (d : date) : Qc :=
  match find (fun a => act_date a =? d) df_actions with
  | Some a => if Qc_eqb (Stock_Splits a) 0 then 1%Qc else Stock_Splits a
  | None => 1%Qc
  end.

(** The dates of [l] from the first occurrence of [s] on, and the dates
    of [l] up to and including the first occurrence of [d]. *)
Fixpoint from_date (s : date) (l : list date) : list date :=
  match l with
  | [] => []
  | e :: t => if e =? s then l else from_date s t
  end.

Fixpoint through (d : date) (l : list date) : list date :=
  match l with
  | [] => []
  | e :: t => if e =? d then [e] else e :: through d t
  end.

(** The first date of the frame with a defined, non-zero quantity. *)
Definition first_held (df : pd.Series) : option date :=
  option_map fst (find (fun r => notna (replace0 (snd r))) df).

(** The dates of the frame from the first held date up to [d]. *)
Definition held_dates (df : pd.Series) (d : date) : list date :=
  match first_held df with
  | Some s => through d (from_date s (map fst df))
  | None => []
  end.

(** Product of the split factors announced on those dates. *)
Definition cumulative_factor (df : pd.Series) (df_actions : list Action) (d : date) : Qc :=
  prodv (map (split_factor df_actions) (held_dates df d)).

(** The adjusted quantity of one row. *)
Definition adjusted_row (df : pd.Series) (df_actions : list Action) (r : date * cell)
  : date * cell :=
  (fst r,
   match replace0 (snd r) with
   | Some q => Some (ceilQc (q * cumulative_factor df df_actions (fst r)))
   | None => None
   end).



(** The message lines of [stocksplits]. *)
Definition checking (ticker : string) : string := (CR ++ "Checking " ++ ticker)%string.
Definition went_wrong : string := (CR ++ "Something went wrong!")%string.

(** What [stocksplits] returns when it returns: the adjusted series
    when a positive split is announced, the series itself otherwise and
    when the lookup raised a [TypeError]. *)
Definition adjusted_series (yf_actions : string -> outcome (list Action))
           (df : pd.Series) (ticker : string) : pd.Series :=
  match yf_actions (ticker ++ ".AX")%string with
  | Ok df_actions =>
      if Portfolio.has_split df_actions
      then Portfolio.split_adjust df df_actions else df
  | Raise _ => df
  end.

(** The rows one ticker contributes to the portfolio frame. *)
Definition frame_of (by_ticker_volume : string -> list (date * Qc))
           (close : string -> pd.Series)
           (yf_actions : string -> outcome (list Action))
           (p_dates : list date) (ticker : string) : list TickerRow :=
  map (Portfolio.with_ticker ticker)
      (Portfolio.merge_close
         (adjusted_series yf_actions
            (Portfolio.quantity_series (by_ticker_volume ticker) p_dates) ticker)
         (close ticker)).

(** The record of the table at (date, ticker), if any. *)
Definition record_at (d : date) (t : string) (table : list HoldingRow)
  : option HoldingRow :=
  find (fun r => (Date r =? d) && String.eqb (Ticker r) t) table.

Definition table_of (o : outcome (list HoldingRow) * list string) : list HoldingRow :=
  match fst o with
  | Ok table => table
  | Raise _ => []
  end.

(** A run of [build] on a ledger, with the ledger access and the date
    range of the repository. *)
Definition run_build (trades : list TransactionEvent) (today : date)
           (close : string -> pd.Series)
           (yf_actions : string -> outcome (list Action))
  : outcome (list HoldingRow) * list string :=
  Portfolio.build (Trades.by_ticker_volume trades) datehandler.date_list
                  close yf_actions trades today [].

Definition flat_price (p : Z) (dates : list date) : pd.Series :=
  map (fun d => (d, Some (Z2Qc p))) dates.

(** Ledgers and providers of the worked scenarios. *)
Definition trade (d : date) (ticker : string) (volume : Z) : TransactionEvent :=
  mkEvent d ticker (Z2Qc volume) (Z2Qc 10).

(** One buy, prices on days 1 and 3 only. *)
Definition scenario_price_gap : outcome (list HoldingRow) * list string :=
  run_build [trade 1 "ABC" 100] 3
            (fun _ => flat_price 12 [1; 3]) (fun _ => Ok []).

(** Two instruments, the second first traded on day 3. *)
Definition scenario_two_tickers : outcome (list HoldingRow) * list string :=
  run_build [trade 1 "AAA" 100; trade 3 "BBB" 50] 4
            (fun _ => flat_price 12 [1; 2; 4]) (fun _ => Ok []).


(** The lookup of the first instrument fails with a connection error. *)
Definition scenario_provider_down : outcome (list HoldingRow) * list string :=
  run_build [trade 1 "AAA" 100; trade 3 "BBB" 50] 4
            (fun _ => flat_price 12 [1; 2; 4])
            (fun name => if String.eqb name "AAA.AX"
                         then Raise (OtherError "ConnectionError") else Ok []).

(** The lookup of the first instrument raises a [TypeError]. *)
Definition type_error_for_first (name : string) : outcome (list Action) :=
  if String.eqb name "AAA.AX" then Raise TypeError else Ok [].

Definition scenario_type_error : outcome (list HoldingRow) * list string :=
  run_build [trade 1 "AAA" 100; trade 3 "BBB" 50] 4
            (fun _ => flat_price 12 [1; 2; 4]) type_error_for_first.

(** Running product of the factors of a split column, a NaN counting 1. *)
Definition factor_of (c : cell) : Qc :=
  match c with Some f => f | None => 1%Qc end.

Fixpoint running_factor (acc : Qc) (l : list cell) : list Qc :=
  match l with
  | [] => []
  | c :: t => (acc * factor_of c)%Qc :: running_factor (acc * factor_of c)%Qc t
  end.

(** The (Date, Ticker) index of the portfolio frame and its order. *)
Definition table_key (r : HoldingRow) : date * string := (Date r, Ticker r).

Definition key_le (a b : HoldingRow) : Prop :=
  Date a < Date b \/ (Date a = Date b /\ String.leb (Ticker a) (Ticker b) = true).

(** The last line [build] prints, and the lines printed for one ticker. *)
Definition built : string := (LF ++ "Portfolio successfully built")%string.

Definition lines_for (yf_actions : string -> outcome (list Action)) (ticker : string)
  : list string :=
  checking ticker ::
  match yf_actions (ticker ++ ".AX")%string with
  | Ok _ => []
  | Raise _ => [went_wrong]
  end.

(** The entry of a date-ordered frame in force on date [d]: that of its
    last date up to and including [d]. *)
Fixpoint last_opt {A} (l : list A) : option A :=
  match l with
  | [] => None
  | x :: t => match t with [] => Some x | _ :: _ => last_opt t end
  end.

Definition last_upto {A} (vs : list (date * A)) (d : date) : option A :=
  last_opt (map snd (filter (fun r => fst r <=? d) vs)).

(** Total value of the table on date [d], undefined values counting 0. *)
Definition daily_value (holdings : list HoldingRow) (d : date) : Qc :=
  sumv (Plot.skipna (map Value (filter (fun r => Date r =? d) holdings))).

(** Amount paid for the trades dated up to and including [d], undefined
    when there is none. *)
Definition paid (e : TransactionEvent) : Qc := (ev_volume e * ev_price e)%Qc.

Definition cost_upto (trades : list TransactionEvent) (d : date) : cell :=
  total (map paid (filter (fun e => ev_date e <=? d) trades)).

(** The two frames [plot] merges: the positive daily totals of the
    table and the running cost of the ledger. *)
Definition value_frame (holdings : list HoldingRow) : pd.Series :=
  filter (fun r => Plot.positive (snd r)) (Plot.groupby_sum Date Value holdings).

Definition cost_frame (trades : list TransactionEvent) : pd.Series :=
  pd.on_column pd.cumsum
    (Plot.groupby_sum ev_date (fun e => Some (paid e)) trades).

(** A ledger of two instruments, bought on days 2 and 4 and sold on day
    6, with the table built from it. *)
Definition plot_trades : list TransactionEvent :=
  [mkEvent 2 "AAA" (Z2Qc 100) (Z2Qc 10); mkEvent 4 "BBB" (Z2Qc 50) (Z2Qc 2);
   mkEvent 6 "AAA" (Z2Qc (-100)) (Z2Qc 10); mkEvent 6 "BBB" (Z2Qc (-50)) (Z2Qc 2)].

Definition plot_holdings : list HoldingRow :=
  table_of (run_build plot_trades 8
                      (fun _ => flat_price 12 [1; 2; 3; 5; 6; 7; 8]) (fun _ => Ok [])).

(** ** Facts about numbers *)

Lemma Qc_eqb_eq (x y : Qc) : Qc_eqb x y = true <-> x = y.
Proof.
  unfold Qc_eqb. rewrite Qeq_bool_iff. split.
  - apply Qc_is_canon.
  - intros ->. reflexivity.
Qed.

Lemma Qc_eqb_refl (x : Qc) : Qc_eqb x x = true.
Proof. now apply Qc_eqb_eq. Qed.

Lemma Qc_ltb_lt (x y : Qc) : Qc_ltb x y = true <-> (x < y)%Qc.
Proof.
  unfold Qc_ltb, Qclt, Qccompare, Qlt, Qcompare.
  rewrite <- Z.compare_lt_iff.
  destruct (_ ?= _)%Z; split; congruence.
Qed.

Lemma cell_eqb_eq (a b : cell) : cell_eqb a b = true -> a = b.
Proof.
  destruct a, b; simpl; try congruence.
  intros H. apply Qc_eqb_eq in H. now subst.
Qed.

Lemma series_eqb_eq (a b : pd.Series) : series_eqb a b = true -> a = b.
Proof.
  revert b. induction a as [|[d x] a IH]; intros [|[e y] b]; simpl; try congruence.
  rewrite !andb_true_iff. intros [[Hd Hx] Hr].
  apply Z.eqb_eq in Hd. apply cell_eqb_eq in Hx. apply IH in Hr. now subst.
Qed.

Lemma replace0_nonzero (q : Qc) : q <> 0%Qc -> replace0 (Some q) = Some q.
Proof.
  intros H. simpl. destruct (Qc_eqb q 0) eqn:E; [|reflexivity].
  apply Qc_eqb_eq in E. contradiction.
Qed.

Lemma replace0_zero : replace0 (Some 0%Qc) = None.
Proof. reflexivity. Qed.

Lemma replace0_Some (c : cell) (q : Qc) :
  replace0 c = Some q -> c = Some q /\ q <> 0%Qc.
Proof.
  destruct c as [x|]; simpl; [|discriminate].
  destruct (Qc_eqb x 0) eqn:E; [discriminate|].
  intros [= ->]. split; [reflexivity|].
  intros ->. now rewrite Qc_eqb_refl in E.
Qed.

(** ** Join keys *)

Section Keys.
Import pd.

Lemma insert_key_In (k x : date) (ks : list date) :
  In x (insert_key k ks) <-> x = k \/ In x ks.
Proof.
  induction ks as [|k' ks IH]; simpl.
  - intuition.
  - destruct (k <? k') eqn:Hlt; [simpl; intuition|].
    destruct (k =? k') eqn:Heq.
    + apply Z.eqb_eq in Heq. subst. simpl. intuition.
    + simpl. rewrite IH. intuition.
Qed.

Lemma sorted_keys_In (x : date) (l : list date) :
  In x (sorted_keys l) <-> In x l.
Proof.
  induction l as [|k l IH]; simpl; [tauto|].
  rewrite insert_key_In, IH. intuition.
Qed.

Lemma insert_key_sorted (k : date) (ks : list date) :
  StronglySorted Z.lt ks -> StronglySorted Z.lt (insert_key k ks).
Proof.
  induction 1 as [|k' ks Hs IH Hall]; simpl.
  - repeat constructor.
  - destruct (k <? k') eqn:Hlt.
    + apply Z.ltb_lt in Hlt. constructor; [now constructor|].
      constructor; [assumption|].
      eapply Forall_impl; [|exact Hall]. intros; simpl in *; lia.
    + destruct (k =? k') eqn:Heq; [now constructor|].
      apply Z.ltb_ge in Hlt. apply Z.eqb_neq in Heq.
      constructor; [assumption|].
      apply Forall_forall. intros x Hx. apply (proj1 (insert_key_In _ _ _)) in Hx.
      destruct Hx as [->|Hx]; [lia|].
      rewrite Forall_forall in Hall. now apply Hall.
Qed.

Lemma sorted_keys_sorted (l : list date) : StronglySorted Z.lt (sorted_keys l).
Proof.
  induction l; simpl; [constructor|now apply insert_key_sorted].
Qed.

Lemma sorted_NoDup (ks : list date) : StronglySorted Z.lt ks -> NoDup ks.
Proof.
  induction 1 as [|k ks Hs IH Hall]; constructor; [|assumption].
  intros Hin. rewrite Forall_forall in Hall. apply Hall in Hin. lia.
Qed.

Lemma below_cons (k : date) (ks : list date) (d : date) :
  below (k :: ks) d = (d <? k) && below ks d.
Proof. reflexivity. Qed.

Lemma below_true (ks : list date) (d : date) :
  below ks d = true <-> (forall k, In k ks -> d < k).
Proof.
  unfold below. rewrite forallb_forall.
  split; intros H k Hk; [apply Z.ltb_lt|apply Z.ltb_lt]; auto.
Qed.

End Keys.

(** ** Keyed lists with distinct dates *)

Section Lookup.
Import pd.
Context {A : Type}.
Implicit Types (l : list (date * A)) (k : date).

Lemma lookup_None k l : lookup k l = None <-> ~ In k (map fst l).
Proof.
  unfold lookup. induction l as [|[d a] l IH]; simpl; [tauto|].
  destruct (d =? k) eqn:E; simpl.
  - apply Z.eqb_eq in E. split; [discriminate|]. intros H. exfalso. apply H. now left.
  - apply Z.eqb_neq in E. rewrite IH. tauto.
Qed.

Lemma lookup_In k l a : lookup k l = Some a -> In (k, a) l.
Proof.
  unfold lookup. induction l as [|[d b] l IH]; simpl; [discriminate|].
  destruct (d =? k) eqn:E; simpl.
  - apply Z.eqb_eq in E. intros [= ->]. subst. now left.
  - intros H. right. now apply IH.
Qed.

Lemma In_lookup k l a : NoDup (map fst l) -> In (k, a) l -> lookup k l = Some a.
Proof.
  unfold lookup. induction l as [|[d b] l IH]; simpl; [tauto|].
  intros ND [H|H].
  - injection H as -> ->. now rewrite Z.eqb_refl.
  - inversion ND as [|? ? Hd ND']; subst.
    destruct (d =? k) eqn:E; [|now apply IH].
    apply Z.eqb_eq in E. subst. exfalso. apply Hd.
    change k with (fst (k, a)). now apply in_map.
Qed.

Lemma rows_at_absent k l : ~ In k (map fst l) -> rows_at k l = [].
Proof.
  unfold rows_at. induction l as [|[d a] l IH]; simpl; [reflexivity|].
  intros H. destruct (d =? k) eqn:E.
  - apply Z.eqb_eq in E. tauto.
  - apply IH. tauto.
Qed.

Lemma rows_at_lookup k l :
  NoDup (map fst l) ->
  rows_at k l = match lookup k l with Some a => [a] | None => [] end.
Proof.
  induction l as [|[d a] l IH]; simpl; [reflexivity|].
  intros ND. inversion ND as [|? ? Hd ND']; subst.
  unfold rows_at, lookup in *. simpl.
  destruct (d =? k) eqn:E; simpl.
  - apply Z.eqb_eq in E. subst. f_equal. now apply rows_at_absent.
  - now apply IH.
Qed.

End Lookup.

Lemma lookup_base (k : date) (p : list date) :
  lookup k (map (fun d => (d, tt)) p) = if in_dec Z.eq_dec k p then Some tt else None.
Proof.
  destruct (in_dec Z.eq_dec k p) as [H|H].
  - destruct (lookup k _) as [[]|] eqn:E; [reflexivity|].
    apply lookup_None in E. rewrite map_map, map_id in E. contradiction.
  - apply lookup_None. now rewrite map_map, map_id.
Qed.

(** ** Column operations keep the index *)

Section Columns.
Import pd.

Lemma cumsum_from_length acc l : List.length (cumsum_from acc l) = List.length l.
Proof. revert acc. induction l as [|[v|] l IH]; intros; simpl; auto. Qed.

Lemma cumprod_from_length acc l : List.length (cumprod_from acc l) = List.length l.
Proof. revert acc. induction l as [|[v|] l IH]; intros; simpl; auto. Qed.

Lemma ffill_from_length last l : List.length (ffill_from last l) = List.length l.
Proof. revert last. induction l as [|[v|] l IH]; intros; simpl; auto. Qed.

Lemma combine_map_keys {K V} (g : K -> V) (ks : list K) :
  combine ks (map g ks) = map (fun k => (k, g k)) ks.
Proof. induction ks; simpl; congruence. Qed.

Lemma map_fst_combine' {K V} (ks : list K) (vs : list V) :
  List.length ks = List.length vs -> map fst (combine ks vs) = ks.
Proof.
  revert vs. induction ks; intros [|v vs]; simpl; intros; try discriminate; f_equal; auto.
Qed.

Lemma map_snd_combine' {K V} (ks : list K) (vs : list V) :
  List.length ks = List.length vs -> map snd (combine ks vs) = vs.
Proof.
  revert vs. induction ks; intros [|v vs]; simpl; intros; try discriminate; f_equal; auto.
Qed.

Lemma on_column_keyed (f : list cell -> list cell) (g : date -> cell) (ks : list date) :
  on_column f (map (fun k => (k, g k)) ks) = combine ks (f (map g ks)).
Proof.
  unfold on_column. rewrite !map_map. simpl. now rewrite map_id.
Qed.

Lemma dropna_In (s : Series) (d : date) (c : cell) :
  In (d, c) (dropna s) <-> In (d, c) s /\ c <> None.
Proof.
  unfold dropna. rewrite filter_In. simpl.
  destruct c; simpl; split; intros [? ?]; split; congruence.
Qed.

End Columns.

(** ** Alignment on the dense dates and the running sum *)

Section Quantity.
Import pd Portfolio.

Variable vol : list (date * Qc).
Hypothesis vol_distinct : NoDup (map fst vol).

Lemma align_volumes_keyed (p_dates : list date) :
  NoDup p_dates ->
  align_volumes vol p_dates
  = map (fun k => (k, lookup k vol)) (sorted_keys (map fst vol ++ p_dates)).
Proof.
  intros NDp. unfold align_volumes, merge_ordered.
  assert (Hbase : map fst (map (fun d : date => (d, tt)) p_dates) = p_dates)
    by (now rewrite map_map, map_id).
  rewrite Hbase.
  assert (Hall : forall k, In k (sorted_keys (map fst vol ++ p_dates)) ->
                           In k (map fst vol) \/ In k p_dates).
  { intros k Hk. apply (proj1 (sorted_keys_In _ _)) in Hk. now apply in_app_or. }
  induction (sorted_keys (map fst vol ++ p_dates)) as [|k ks IH]; [reflexivity|].
  simpl. rewrite map_app, IH by (intros; apply Hall; now right). f_equal.
  rewrite (rows_at_lookup k vol vol_distinct).
  rewrite rows_at_lookup by (now rewrite Hbase).
  rewrite lookup_base.
  destruct (lookup k vol) as [v|] eqn:Ev;
    destruct (in_dec Z.eq_dec k p_dates) as [Hp|Hp]; try reflexivity.
  apply lookup_None in Ev. destruct (Hall k (or_introl eq_refl)); contradiction.
Qed.

Lemma filter_none {A} (f : A -> bool) (l : list A) :
  (forall x, In x l -> f x = false) -> filter f l = [].
Proof.
  induction l as [|a l IH]; simpl; intros H; [reflexivity|].
  rewrite H by now left. apply IH. intros; apply H; now right.
Qed.

Lemma total_nonempty (l : list Qc) (x : Qc) : In x l -> total l = Some (sumv l).
Proof. destruct l; simpl; [contradiction|reflexivity]. Qed.

Lemma sum_upto_split (k : date) (l : list (date * Qc)) :
  sumv (traded_upto l k)
  = (sumv (map snd (filter (fun r => fst r <? k) l)) + sumv (rows_at k l))%Qc.
Proof.
  unfold traded_upto, rows_at.
  induction l as [|[d v] l IH]; simpl; [ring|].
  destruct (Z.compare_spec d k) as [E|E|E].
  - subst. rewrite Z.leb_refl, Z.ltb_irrefl, Z.eqb_refl. simpl. rewrite IH. ring.
  - replace (d <=? k) with true by (symmetry; apply Z.leb_le; lia).
    replace (d <? k) with true by (symmetry; apply Z.ltb_lt; lia).
    replace (d =? k) with false by (symmetry; apply Z.eqb_neq; lia).
    simpl. rewrite IH. ring.
  - replace (d <=? k) with false by (symmetry; apply Z.leb_gt; lia).
    replace (d <? k) with false by (symmetry; apply Z.ltb_ge; lia).
    replace (d =? k) with false by (symmetry; apply Z.eqb_neq; lia).
    exact IH.
Qed.

(** Running sum and forward fill over the remaining keys [ks], the
    volumes dated before all of [ks] having been accumulated. *)
Lemma running_sum_keys (ks : list date) :
  StronglySorted Z.lt ks ->
  (forall r, In r vol -> below ks (fst r) = true \/ In (fst r) ks) ->
  let done := map snd (filter (fun r => below ks (fst r)) vol) in
  ffill_from (total done)
             (cumsum_from (sumv done) (map (fun k => lookup k vol) ks))
  = map (quantity_upto vol) ks.
Proof.
  induction 1 as [|k ks Hs IH Hall]; intros Hinv; [reflexivity|].
  rewrite Forall_forall in Hall.
  assert (Hinv' : forall r, In r vol -> below ks (fst r) = true \/ In (fst r) ks).
  { intros r Hr. destruct (Hinv r Hr) as [Hb|[He|Hi]].
    - left. rewrite below_cons in Hb. now apply andb_true_iff in Hb.
    - left. apply below_true. intros k' Hk'. rewrite <- He. now apply Hall.
    - now right. }
  assert (Hnext : filter (fun r => below ks (fst r)) vol
                  = filter (fun r => fst r <=? k) vol).
  { apply filter_ext_in. intros r Hr. cbv beta.
    destruct (fst r <=? k) eqn:E.
    - apply Z.leb_le in E. apply below_true. intros k' Hk'. apply Hall in Hk'. lia.
    - apply Z.leb_gt in E. destruct (below ks (fst r)) eqn:Hb; [|reflexivity].
      destruct (Hinv r Hr) as [Hb'|[He|Hi]].
      + rewrite below_cons in Hb'. apply andb_true_iff in Hb'.
        destruct Hb' as [Hb' _]. apply Z.ltb_lt in Hb'. lia.
      + lia.
      + rewrite below_true in Hb. apply Hb in Hi. lia. }
  assert (Hprev : filter (fun r => below (k :: ks) (fst r)) vol
                  = filter (fun r => fst r <? k) vol).
  { apply filter_ext_in. intros r Hr. cbv beta. rewrite below_cons.
    destruct (fst r <? k) eqn:E; [|reflexivity]. simpl.
    apply Z.ltb_lt in E. apply below_true. intros k' Hk'. apply Hall in Hk'. lia. }
  specialize (IH Hinv'). cbv zeta in IH |- *. rewrite Hnext in IH. rewrite Hprev.
  fold (traded_upto vol k) in IH.
  pose proof (sum_upto_split k vol) as Hsum.
  rewrite (rows_at_lookup k vol vol_distinct) in Hsum.
  simpl map. unfold quantity_upto at 1.
  destruct (lookup k vol) as [v|] eqn:Ev.
  - assert (Hne : total (traded_upto vol k) = Some (sumv (traded_upto vol k))).
    { apply lookup_In in Ev. apply (total_nonempty _ v).
      unfold traded_upto. change v with (snd (k, v)). apply in_map.
      apply filter_In. split; [assumption|]. simpl. apply Z.leb_refl. }
    simpl in Hsum. rewrite Qcplus_0_r in Hsum.
    simpl. rewrite <- Hsum. rewrite Hne in IH |- *. f_equal. exact IH.
  - assert (Hsame : traded_upto vol k = map snd (filter (fun r => fst r <? k) vol)).
    { unfold traded_upto. f_equal. apply filter_ext_in. intros r Hr. cbv beta.
      apply (proj1 (lookup_None _ _)) in Ev.
      assert (fst r <> k) by (intros <-; apply Ev; now apply in_map).
      destruct (fst r <=? k) eqn:E1, (fst r <? k) eqn:E2; try reflexivity.
      - apply Z.leb_le in E1. apply Z.ltb_ge in E2. lia.
      - apply Z.leb_gt in E1. apply Z.ltb_lt in E2. lia. }
    rewrite Hsame in IH |- *. simpl. f_equal. exact IH.
Qed.

Lemma daily_quantity_keyed (p_dates : list date) :
  NoDup p_dates ->
  daily_quantity vol p_dates
  = map (fun k => (k, quantity_upto vol k)) (sorted_keys (map fst vol ++ p_dates)).
Proof.
  intros NDp. unfold daily_quantity. rewrite (align_volumes_keyed p_dates NDp).
  set (ks := sorted_keys (map fst vol ++ p_dates)).
  rewrite on_column_keyed.
  unfold on_column.
  rewrite map_fst_combine', map_snd_combine'
    by (unfold cumsum; now rewrite cumsum_from_length, length_map).
  rewrite <- combine_map_keys. f_equal.
  assert (Hnone : filter (fun r => below ks (fst r)) vol = []).
  { assert (Hf : forall r, In r vol -> below ks (fst r) = false).
    { intros r Hr. destruct (below ks (fst r)) eqn:Hb; [|reflexivity].
      rewrite below_true in Hb.
      assert (In (fst r) ks).
      { apply (proj2 (sorted_keys_In _ _)), in_or_app. left. now apply in_map. }
      apply Hb in H. lia. }
    now apply filter_none. }
  pose proof (running_sum_keys ks (sorted_keys_sorted _)) as H.
  cbv zeta in H. rewrite Hnone in H. apply H.
  intros r Hr. right. apply (proj2 (sorted_keys_In _ _)), in_or_app. left. now apply in_map.
Qed.

End Quantity.

(** ** The running quantity as a function of the date *)

Section QuantityUpto.

Variable vol : list (date * Qc).

Lemma quantity_upto_Some (d : date) (q : Qc) :
  quantity_upto vol d = Some q -> q = sumv (traded_upto vol d).
Proof.
  unfold quantity_upto, total. destruct (traded_upto vol d); congruence.
Qed.

Lemma quantity_upto_None (d : date) :
  quantity_upto vol d = None <-> (forall e, In e (map fst vol) -> d < e).
Proof.
  unfold quantity_upto, traded_upto. split.
  - intros H e He. apply in_map_iff in He. destruct He as [r [<- Hr]].
    destruct (Z.lt_ge_cases d (fst r)) as [|Hle]; [assumption|].
    assert (Hin : In (snd r) (map snd (filter (fun r => fst r <=? d) vol))).
    { apply in_map, filter_In. split; [assumption|]. now apply Z.leb_le. }
    destruct (map snd _); [contradiction|discriminate].
  - intros H. rewrite filter_none; [reflexivity|].
    intros r Hr. apply Z.leb_gt. apply H. now apply in_map.
Qed.

Lemma quantity_upto_flat (d d' : date) :
  d <= d' ->
  (forall e, In e (map fst vol) -> ~ (d < e <= d')) ->
  quantity_upto vol d' = quantity_upto vol d.
Proof.
  intros Hle Hno. unfold quantity_upto, traded_upto. do 2 f_equal.
  apply filter_ext_in. intros r Hr. cbv beta.
  specialize (Hno (fst r) (in_map fst _ _ Hr)).
  destruct (fst r <=? d') eqn:E1, (fst r <=? d) eqn:E2; try reflexivity.
  - apply Z.leb_le in E1. apply Z.leb_gt in E2. lia.
  - apply Z.leb_gt in E1. apply Z.leb_le in E2. lia.
Qed.

End QuantityUpto.

Lemma has_row_In (d : date) (c : cell) (s : pd.Series) :
  has_row d c s = true -> In (d, c) s.
Proof.
  unfold has_row. rewrite existsb_exists. intros [[e x] [Hin H]].
  simpl in H. apply andb_true_iff in H. destruct H as [Hd Hc].
  apply Z.eqb_eq in Hd. apply cell_eqb_eq in Hc. now subst.
Qed.

Ltac distinct_dates :=
  vm_compute; repeat (constructor; [simpl; intuition discriminate|]); constructor.

(** The worked scenarios of the quantity series: one buy; a buy and a
    partial sale; a buy followed by a 2-for-1 split. *)
Example quantity_one_buy :
  Portfolio.quantity_series [(2, Z2Qc 100)] (datehandler.date_list 1 4)
  = [(2, Some (Z2Qc 100)); (3, Some (Z2Qc 100)); (4, Some (Z2Qc 100))].
Proof. apply series_eqb_eq. vm_compute. reflexivity. Qed.

Example quantity_partial_sale :
  Portfolio.quantity_series [(1, Z2Qc 100); (5, Z2Qc (-40))] (datehandler.date_list 1 6)
  = [(1, Some (Z2Qc 100)); (2, Some (Z2Qc 100)); (3, Some (Z2Qc 100));
     (4, Some (Z2Qc 100)); (5, Some (Z2Qc 60)); (6, Some (Z2Qc 60))].
Proof. apply series_eqb_eq. vm_compute. reflexivity. Qed.

Example quantity_after_split :
  Portfolio.split_adjust
    (Portfolio.quantity_series [(1, Z2Qc 100)] (datehandler.date_list 1 4))
    [mkAction 3 0%Qc (Z2Qc 2)]
  = [(1, Some (Z2Qc 100)); (2, Some (Z2Qc 100)); (3, Some (Z2Qc 200));
     (4, Some (Z2Qc 200))].
Proof. apply series_eqb_eq. vm_compute. reflexivity. Qed.

(** C1.  With one net volume per trade date, every row [(d, c)] of the
    daily quantity (before split adjustment) satisfies: when [c] is
    defined it is the sum of the volumes of all trade dates up to and
    including [d]; [c] is undefined exactly when [d] precedes every trade
    date; and a later row separated from [d] by no trade date carries the
    same quantity.  Every dense date has exactly one row. *)
Theorem C1_quantity_is_running_sum
  (vol : list (date * Qc)) (p_dates : list date) :
  NoDup (map fst vol) -> NoDup p_dates ->
  let daily := Portfolio.daily_quantity vol p_dates in
  NoDup (map fst daily) /\
  (forall d, In d p_dates -> exists c, In (d, c) daily) /\
  (forall d c, In (d, c) daily ->
     (forall q, c = Some q -> q = sumv (traded_upto vol d)) /\
     (c = None <-> forall e, In e (map fst vol) -> d < e) /\
     (forall d' c', In (d', c') daily -> d <= d' ->
        (forall e, In e (map fst vol) -> ~ (d < e <= d')) -> c' = c)).
Proof.
  intros NDv NDp daily. subst daily.
  rewrite (daily_quantity_keyed vol NDv p_dates NDp).
  set (ks := pd.sorted_keys (map fst vol ++ p_dates)).
  assert (Hrow : forall d c, In (d, c) (map (fun k => (k, quantity_upto vol k)) ks) ->
                             c = quantity_upto vol d).
  { intros d c H. apply in_map_iff in H. destruct H as [k [[= <- <-] _]]. reflexivity. }
  split; [|split].
  - rewrite map_map. simpl. rewrite map_id. apply sorted_NoDup, sorted_keys_sorted.
  - intros d Hd. exists (quantity_upto vol d).
    apply in_map_iff. exists d. split; [reflexivity|].
    apply (proj2 (sorted_keys_In _ _)), in_or_app. now right.
  - intros d c Hin. apply Hrow in Hin. subst c. split; [|split].
    + apply quantity_upto_Some.
    + apply quantity_upto_None.
    + intros d' c' Hin' Hle Hno. apply Hrow in Hin'. subst c'.
      now apply quantity_upto_flat.
Qed.

Lemma C1_quantity_is_running_sum_witness :
  let vol := [(3, Z2Qc 100); (5, Z2Qc (-40))] in
  In (6, Some (Z2Qc 60)) (Portfolio.daily_quantity vol (datehandler.date_list 1 7)) /\
  Z2Qc 60 = sumv (traded_upto vol 6).
Proof.
  intros vol.
  assert (Hin : In (6, Some (Z2Qc 60))
                   (Portfolio.daily_quantity vol (datehandler.date_list 1 7))).
  { apply has_row_In. vm_compute. reflexivity. }
  split; [exact Hin|].
  assert (NDv : NoDup (map fst vol)) by distinct_dates.
  assert (NDp : NoDup (datehandler.date_list 1 7)) by distinct_dates.
  destruct (C1_quantity_is_running_sum vol (datehandler.date_list 1 7) NDv NDp)
    as [_ [_ H]].
  destruct (H 6 (Some (Z2Qc 60)) Hin) as [Hsum _].
  exact (Hsum (Z2Qc 60) eq_refl).
Defined.

(** ** The cumulative split factor *)

Section SplitColumn.
Import pd.

Lemma cumulative_column (l : list cell) :
  forall (last : cell) (acc : Qc),
    (last = None /\ acc = 1%Qc) \/ last = Some acc ->
    map (fillna 1%Qc) (ffill_from last (cumprod_from acc l))
    = map Some (running_factor acc l).
Proof.
  induction l as [|[f|] l IH]; intros last acc Hinv; [reflexivity| |].
  - cbn [cumprod_from ffill_from running_factor factor_of map fillna].
    f_equal. apply IH. now right.
  - cbn [cumprod_from ffill_from running_factor factor_of map].
    rewrite Qcmult_1_r. f_equal.
    + destruct Hinv as [[-> ->]| ->]; reflexivity.
    + now apply IH.
Qed.

Lemma reindex_running (sp : date -> cell) (d : date) (l : list date) :
  forall acc : Qc,
    In d l ->
    reindex (combine l (map Some (running_factor acc (map sp l)))) d
    = Some (acc * prodv (map (fun e => factor_of (sp e)) (through d l)))%Qc.
Proof.
  unfold reindex.
  induction l as [|e l IH]; intros acc Hin; [contradiction|].
  cbn [map running_factor combine find fst through].
  destruct (e =? d) eqn:E.
  - cbn [snd map prodv fold_right]. now rewrite Qcmult_1_r.
  - apply Z.eqb_neq in E. destruct Hin as [->|Hin]; [contradiction|].
    rewrite IH by assumption. cbn [map prodv fold_right].
    f_equal. unfold prodv. ring.
Qed.

Lemma on_column_combine (f : list cell -> list cell) (L : list date) (vs : list cell) :
  List.length L = List.length vs ->
  on_column f (combine L vs) = combine L (f vs).
Proof.
  intros H. unfold on_column. now rewrite map_fst_combine', map_snd_combine'.
Qed.

Variable df_actions : list Action.

Lemma reindex_splits (d : date) :
  factor_of
    (reindex (map (fun a => (act_date a, replace0 (Some (Stock_Splits a)))) df_actions) d)
  = split_factor df_actions d.
Proof.
  unfold reindex, split_factor.
  induction df_actions as [|a l IH]; [reflexivity|].
  cbn [map find fst]. destruct (act_date a =? d); [|exact IH].
  cbn [snd replace0]. now destruct (Qc_eqb (Stock_Splits a) 0).
Qed.

End SplitColumn.

Section SplitAdjust.
Import pd Portfolio.

Lemma first_valid_masked (df : Series) :
  first_valid_index (map (fun r => (fst r, replace0 (snd r))) df) = first_held df.
Proof.
  unfold first_valid_index, first_held.
  induction df as [|r df IH]; [reflexivity|].
  cbn [map find snd]. destruct (notna (replace0 (snd r))); [reflexivity|exact IH].
Qed.

Lemma drop_until_keyed (sp : date -> cell) (s : date) (df : Series) :
  drop_until s (map (fun r => (fst r, sp (fst r))) df)
  = map (fun e => (e, sp e)) (from_date s (map fst df)).
Proof.
  induction df as [|r df IH]; [reflexivity|].
  cbn [map drop_until from_date fst]. destruct (fst r =? s); [|exact IH].
  cbn [map]. f_equal. now rewrite map_map.
Qed.

Lemma first_held_None (df : Series) (r : date * cell) :
  first_held df = None -> In r df -> replace0 (snd r) = None.
Proof.
  unfold first_held. intros H Hin.
  destruct (find _ df) eqn:E; [discriminate|].
  pose proof (find_none _ _ E r Hin) as Hn. cbv beta in Hn.
  now destruct (replace0 (snd r)).
Qed.

Lemma first_held_covers (df : Series) (s : date) (r : date * cell) :
  first_held df = Some s -> In r df -> replace0 (snd r) <> None ->
  In (fst r) (from_date s (map fst df)).
Proof.
  unfold first_held.
  induction df as [|r0 df IH]; intros Hs Hin Hr; [contradiction|].
  cbn [find map from_date] in *.
  destruct (notna (replace0 (snd r0))) eqn:E0.
  - injection Hs as Hs. rewrite Hs, Z.eqb_refl.
    rewrite <- Hs. change (In (fst r) (map fst (r0 :: df))). now apply in_map.
  - destruct Hin as [->|Hin].
    + destruct (replace0 (snd r)); [discriminate|contradiction].
    + destruct (fst r0 =? s); [right; now apply in_map|now apply IH].
Qed.

(** Lines 108-124 row by row. *)
Lemma split_adjust_rows (df : Series) (df_actions : list Action) :
  split_adjust df df_actions = map (adjusted_row df df_actions) df.
Proof.
  unfold split_adjust. rewrite !map_map. cbn [fst snd].
  rewrite first_valid_masked.
  apply map_ext_in. intros r Hr. unfold adjusted_row. f_equal.
  destruct (replace0 (snd r)) as [q|] eqn:Eq; [|reflexivity].
  set (sp := reindex (map (fun a => (act_date a, replace0 (Some (Stock_Splits a))))
                          df_actions)).
  assert (Hcum : forall L : list date,
             on_column (map (fillna 1%Qc))
               (on_column ffill (on_column cumprod (map (fun e => (e, sp e)) L)))
             = combine L (map Some (running_factor 1%Qc (map sp L)))).
  { intros L. rewrite <- combine_map_keys.
    rewrite !on_column_combine;
      unfold ffill, cumprod;
      rewrite ?ffill_from_length, ?cumprod_from_length, ?length_map; try reflexivity.
    f_equal. apply cumulative_column. now left. }
  unfold cumulative_factor, held_dates.
  destruct (first_held df) as [s|] eqn:Es.
  - cbn [loc_from]. rewrite (drop_until_keyed sp), Hcum.
    rewrite reindex_running
      by (apply first_held_covers; [assumption|assumption|congruence]).
    cbn [cell_mul np_ceil option_map]. do 3 f_equal.
    rewrite Qcmult_1_l. f_equal. apply map_ext. intros e. apply reindex_splits.
  - rewrite (first_held_None df r Es Hr) in Eq. discriminate.
Qed.

End SplitAdjust.

(** ** [stocksplits], case by case *)

Section Stocksplits.
Import pd Portfolio.

Variable yf_actions : string -> outcome (list Action).
Variables (df : Series) (ticker : string) (log : list string).

Lemma stocksplits_fetched (df_actions : list Action) :
  yf_actions (ticker ++ ".AX")%string = Ok df_actions ->
  stocksplits yf_actions df ticker log
  = (Ok (if has_split df_actions then split_adjust df df_actions else df),
     log ++ [checking ticker]).
Proof.
  intros H. unfold stocksplits, bind, print. rewrite H.
  now destruct (has_split df_actions).
Qed.

Lemma stocksplits_type_error :
  yf_actions (ticker ++ ".AX")%string = Raise TypeError ->
  stocksplits yf_actions df ticker log
  = (Ok df, (log ++ [checking ticker]) ++ [went_wrong]).
Proof.
  intros H. unfold stocksplits, bind, print. now rewrite H.
Qed.

Lemma stocksplits_propagates (e : exn) :
  yf_actions (ticker ++ ".AX")%string = Raise e -> e <> TypeError ->
  stocksplits yf_actions df ticker log = (Raise e, log ++ [checking ticker]).
Proof.
  intros H Hne. unfold stocksplits, bind, print. rewrite H.
  destruct e; [contradiction|reflexivity|reflexivity].
Qed.

End Stocksplits.

Lemma has_split_true (df_actions : list Action) :
  Portfolio.has_split df_actions = true
  <-> exists a, In a df_actions /\ (0 < Stock_Splits a)%Qc.
Proof.
  unfold Portfolio.has_split. split.
  - intros H. apply Nat.ltb_lt in H.
    destruct (filter _ df_actions) as [|a l] eqn:E; [simpl in H; lia|].
    assert (Hin : In a (filter (fun a => Qc_ltb 0 (Stock_Splits a)) df_actions))
      by (rewrite E; now left).
    apply filter_In in Hin. destruct Hin as [Hin Hlt].
    exists a. split; [assumption|now apply Qc_ltb_lt].
  - intros [a [Hin Hlt]]. apply Nat.ltb_lt.
    assert (Hf : In a (filter (fun a => Qc_ltb 0 (Stock_Splits a)) df_actions)).
    { apply filter_In. split; [assumption|now apply Qc_ltb_lt]. }
    destruct (filter _ df_actions); [contradiction|simpl; lia].
Qed.

Lemma has_split_false (df_actions : list Action) :
  (forall a, In a df_actions -> (Stock_Splits a <= 0)%Qc) ->
  Portfolio.has_split df_actions = false.
Proof.
  intros H. destruct (Portfolio.has_split df_actions) eqn:E; [|reflexivity].
  apply has_split_true in E. destruct E as [a [Hin Hlt]].
  apply H in Hin. exfalso. apply (Qclt_not_le _ _ Hlt Hin).
Qed.

Lemma reindex_keyed (g : date * cell -> cell) (df : pd.Series) (d : date) (c : cell) :
  NoDup (map fst df) -> In (d, c) df ->
  pd.reindex (map (fun r => (fst r, g r)) df) d = g (d, c).
Proof.
  unfold pd.reindex. induction df as [|r df IH]; intros ND Hin; [contradiction|].
  inversion ND as [|? ? Hd ND']; subst.
  cbn [map find fst]. destruct Hin as [->|Hin].
  - cbn [fst]. now rewrite Z.eqb_refl.
  - destruct (fst r =? d) eqn:E; [|now apply IH].
    apply Z.eqb_eq in E. exfalso. apply Hd. rewrite E.
    change d with (fst (d, c)). now apply in_map.
Qed.

Lemma ceilQc_whole (q : Qc) : ceilQc q = Z2Qc (Qceiling q).
Proof. reflexivity. Qed.

Lemma ceilQc_bounds (q : Qc) : (q <= ceilQc q)%Qc /\ (ceilQc q < q + 1)%Qc.
Proof.
  unfold ceilQc, Qcle, Qclt. cbn [this Q2Qc Qcplus].
  rewrite !Qred_correct. split.
  - apply Qle_ceiling.
  - pose proof (Qceiling_lt q) as H.
    unfold Z.sub in H. rewrite inject_Z_plus, inject_Z_opp in H.
    change (inject_Z 1) with 1%Q in H. lra.
Qed.

Lemma Qc_eqb_neq (x y : Qc) : Qc_eqb x y = false -> x <> y.
Proof. intros H ->. now rewrite Qc_eqb_refl in H. Qed.

Lemma adjusted_dates (df : pd.Series) (df_actions : list Action) :
  map fst (map (adjusted_row df df_actions) df) = map fst df.
Proof. rewrite map_map. now apply map_ext. Qed.

Lemma reindex_adjusted (df : pd.Series) (df_actions : list Action) (d : date) (c : cell) :
  NoDup (map fst df) -> In (d, c) df ->
  pd.reindex (map (adjusted_row df df_actions) df) d
  = snd (adjusted_row df df_actions (d, c)).
Proof.
  intros ND Hin.
  exact (reindex_keyed (fun r => snd (adjusted_row df df_actions r)) df d c ND Hin).
Qed.




(** C8 (amended).  When the actions table of the instrument has no row
    with a positive split factor on any date - in particular when it is
    empty - the adjuster returns the input series unchanged. *)
Theorem C8_no_split_identity
  (yf_actions : string -> outcome (list Action))
  (df : pd.Series) (ticker : string) (log : list string) (df_actions : list Action) :
  yf_actions (ticker ++ ".AX")%string = Ok df_actions ->
  (forall a, In a df_actions -> (Stock_Splits a <= 0)%Qc) ->
  Portfolio.stocksplits yf_actions df ticker log = (Ok df, log ++ [checking ticker]).
Proof.
  intros Hyf Hnone.
  rewrite (stocksplits_fetched yf_actions df ticker log df_actions Hyf).
  now rewrite (has_split_false df_actions Hnone).
Qed.

Lemma C8_no_split_identity_witness :
  let df := [(5, Some (Z2Qc 100)); (6, Some 0%Qc)] in
  Portfolio.stocksplits (fun _ => Ok []) df "ABC" [] = (Ok df, [] ++ [checking "ABC"]).
Proof.
  intros df.
  apply (C8_no_split_identity (fun _ => Ok []) df "ABC" [] [] eq_refl).
  intros a Hin. destruct Hin.
Defined.

(** C8, as claimed, fails: a split of factor 2 on day 1 lies outside the
    date range 5..6 of the series, yet the series is not returned
    unchanged (the zero quantity of day 6 becomes undefined). *)
Lemma C8_counterexample :
  let df := [(5, Some (Z2Qc 100)); (6, Some 0%Qc)] in
  let df_actions := [mkAction 1 0%Qc (Z2Qc 2)] in
  (forall a, In a df_actions -> In (act_date a) (map fst df) -> Stock_Splits a = 1%Qc) /\
  fst (Portfolio.stocksplits (fun _ => Ok df_actions) df "ABC" []) <> Ok df.
Proof.
  intros df df_actions. split.
  - intros a [<-|[]] [H|[H|[]]]; discriminate H.
  - intros H. apply (f_equal (fun o => match o with
                                        | Ok out => pd.reindex out 6
                                        | Raise _ => None
                                        end)) in H.
    vm_compute in H. discriminate H.
Qed.





(** ** The loop over tickers and the portfolio frame *)

Section BuildFacts.
Import pd Portfolio.

Variable by_ticker_volume : string -> list (date * Qc).
Variable date_list : date -> date -> list date.
Variable close : string -> Series.
Variable yf_actions : string -> outcome (list Action).

Lemma stocksplits_Ok (df adj : Series) (ticker : string) (log log' : list string) :
  stocksplits yf_actions df ticker log = (Ok adj, log') ->
  adj = adjusted_series yf_actions df ticker.
Proof.
  unfold stocksplits, adjusted_series, bind, print, ret, raise.
  destruct (yf_actions (ticker ++ ".AX")%string) as [a|[| |n]].
  - destruct (has_split a); intros [= <- _]; reflexivity.
  - intros [= <- _]. reflexivity.
  - discriminate.
  - discriminate.
Qed.

Lemma stocksplits_soft (df : Series) (ticker : string) (log : list string) :
  (forall e, yf_actions (ticker ++ ".AX")%string = Raise e -> e = TypeError) ->
  exists log',
    stocksplits yf_actions df ticker log
    = (Ok (adjusted_series yf_actions df ticker), log').
Proof.
  intros Hsoft. unfold stocksplits, adjusted_series, bind, print, ret, raise.
  destruct (yf_actions (ticker ++ ".AX")%string) as [a|e].
  - destruct (has_split a); eexists; reflexivity.
  - rewrite (Hsoft e eq_refl). eexists; reflexivity.
Qed.

Lemma for_tickers_Ok (p_dates : list date) (tickers : list string) :
  forall (acc df : list TickerRow) (log log' : list string),
    for_tickers by_ticker_volume close yf_actions p_dates tickers acc log = (Ok df, log') ->
    df = acc ++ flat_map (frame_of by_ticker_volume close yf_actions p_dates) tickers.
Proof.
  induction tickers as [|t ts IH]; intros acc df log log'.
  - cbn. intros [= <- _]. now rewrite app_nil_r.
  - cbn [for_tickers flat_map]. unfold bind at 1, ticker_frame, bind at 1.
    destruct (stocksplits yf_actions _ t log) as [[adj|e] log1] eqn:Es;
      [|discriminate].
    apply stocksplits_Ok in Es. subst adj. unfold ret at 1.
    intros H. apply IH in H. rewrite H, <- app_assoc. reflexivity.
Qed.

Lemma for_tickers_soft (p_dates : list date) (tickers : list string) :
  (forall t e, In t tickers -> yf_actions (t ++ ".AX")%string = Raise e -> e = TypeError) ->
  forall (acc : list TickerRow) (log : list string),
  exists log',
    for_tickers by_ticker_volume close yf_actions p_dates tickers acc log
    = (Ok (acc ++ flat_map (frame_of by_ticker_volume close yf_actions p_dates) tickers),
       log').
Proof.
  induction tickers as [|t ts IH]; intros Hsoft acc log.
  - exists log. cbn. now rewrite app_nil_r.
  - cbn [for_tickers flat_map]. unfold bind at 1, ticker_frame, bind at 1.
    destruct (stocksplits_soft (quantity_series (by_ticker_volume t) p_dates) t log)
      as [log1 Hs]; [intros e; apply Hsoft; now left|].
    rewrite Hs. unfold ret at 1.
    destruct (IH (fun t' e Hin => Hsoft t' e (or_intror Hin))
                 (acc ++ map (with_ticker t)
                        (merge_close
                           (adjusted_series yf_actions
                              (quantity_series (by_ticker_volume t) p_dates) t)
                           (close t)))
                 log1) as [log' H].
    exists log'. rewrite H, <- app_assoc. reflexivity.
Qed.

Lemma insert_row_In (r x : TickerRow) (l : list TickerRow) :
  In x (insert_row r l) <-> x = r \/ In x l.
Proof.
  induction l as [|r' l IH]; simpl; [intuition|].
  destruct (index_leb r r'); simpl; [intuition|]. rewrite IH. intuition.
Qed.

Lemma sort_index_In (x : TickerRow) (l : list TickerRow) :
  In x (sort_index l) <-> In x l.
Proof.
  induction l as [|r l IH]; simpl; [tauto|].
  rewrite insert_row_In, IH. intuition.
Qed.

Lemma build_Ok (trades : list TransactionEvent) (today : date)
      (log log' : list string) (table : list HoldingRow) :
  build by_ticker_volume date_list close yf_actions trades today log = (Ok table, log') ->
  exists first rest,
    trades = first :: rest /\
    table = map assign_value
              (sort_index
                 (flat_map (frame_of by_ticker_volume close yf_actions
                                     (date_list (ev_date first) today))
                           (sorted_set (map ev_ticker trades)))).
Proof.
  unfold build. destruct trades as [|first rest]; [discriminate|].
  destruct (date_list (ev_date first) today) as [|d0 ds] eqn:Ep; [discriminate|].
  unfold bind at 1.
  destruct (for_tickers _ _ _ _ _ _ log) as [[df|e] log1] eqn:Ef; [|discriminate].
  apply for_tickers_Ok in Ef. cbn [app] in Ef. subst df.
  unfold bind, print, ret. intros [= <- _].
  exists first, rest. split; [reflexivity|]. now rewrite Ep.
Qed.

Lemma build_soft (trades : list TransactionEvent) (today : date) (log : list string)
      (first : TransactionEvent) (rest : list TransactionEvent) :
  trades = first :: rest ->
  date_list (ev_date first) today <> [] ->
  (forall t e, In t (sorted_set (map ev_ticker trades)) ->
               yf_actions (t ++ ".AX")%string = Raise e -> e = TypeError) ->
  exists log',
    build by_ticker_volume date_list close yf_actions trades today log
    = (Ok (map assign_value
             (sort_index
                (flat_map (frame_of by_ticker_volume close yf_actions
                                    (date_list (ev_date first) today))
                          (sorted_set (map ev_ticker trades))))),
       log').
Proof.
  intros -> Hp Hsoft. unfold build.
  destruct (date_list (ev_date first) today) as [|d0 ds] eqn:Ep; [contradiction|].
  unfold bind at 1.
  destruct (for_tickers_soft (d0 :: ds) _ Hsoft [] log) as [log1 Hf].
  rewrite Hf. cbn [app]. unfold bind, print, ret. eexists. reflexivity.
Qed.

End BuildFacts.

(** ** Rows of an outer join *)

Section Join.
Import pd.
Context {A B : Type}.
Implicit Types (l : list (date * A)) (r : list (date * B)).

Lemma rows_at_In {C} (k : date) (c : C) (l : list (date * C)) :
  In c (rows_at k l) <-> In (k, c) l.
Proof.
  unfold rows_at. rewrite in_map_iff. split.
  - intros [[d x] [Hx Hin]]. apply filter_In in Hin. destruct Hin as [Hin Hd].
    simpl in *. apply Z.eqb_eq in Hd. now subst.
  - intros Hin. exists (k, c). split; [reflexivity|].
    apply filter_In. split; [assumption|]. simpl. apply Z.eqb_refl.
Qed.

Lemma join_group_left (k : date) (a : A) (ls : list A) :
  In a ls -> In (k, Some a, @None B) (join_group k ls []).
Proof.
  intros Hin. destruct ls as [|a0 ls]; [contradiction|].
  unfold join_group. now apply (in_map (fun a => (k, Some a, None))).
Qed.

Lemma join_group_right (k : date) (b : B) (rs : list B) :
  In b rs -> In (k, @None A, Some b) (join_group k [] rs).
Proof.
  intros Hin. unfold join_group. now apply (in_map (fun b => (k, None, Some b))).
Qed.

Lemma join_group_both (k : date) (a : A) (b : B) (ls : list A) (rs : list B) :
  In a ls -> In b rs -> In (k, Some a, Some b) (join_group k ls rs).
Proof.
  intros Ha Hb. destruct ls as [|a0 ls]; [contradiction|].
  destruct rs as [|b0 rs]; [contradiction|].
  unfold join_group. apply in_flat_map. exists a. split; [assumption|].
  now apply (in_map (fun b => (k, Some a, Some b))).
Qed.

Lemma join_group_inv (k k' : date) (oa : option A) (ob : option B)
      (ls : list A) (rs : list B) :
  In (k', oa, ob) (join_group k ls rs) ->
  k' = k /\
  (forall a, oa = Some a -> In a ls) /\
  (forall b, ob = Some b -> In b rs).
Proof.
  unfold join_group. destruct ls as [|a0 ls].
  - intros H. apply in_map_iff in H. destruct H as [b [[= <- <- <-] Hb]].
    repeat split; [discriminate|]. now intros ? [= <-].
  - destruct rs as [|b0 rs].
    + intros H. apply in_map_iff in H. destruct H as [a [[= <- <- <-] Ha]].
      repeat split; [|discriminate]. now intros ? [= <-].
    + intros H. apply in_flat_map in H. destruct H as [a [Ha H]].
      apply in_map_iff in H. destruct H as [b [[= <- <- <-] Hb]].
      repeat split; now intros ? [= <-].
Qed.

Lemma merge_ordered_In (k : date) (oa : option A) (ob : option B) l r :
  In (k, oa, ob) (merge_ordered l r)
  <-> (In k (map fst l) \/ In k (map fst r)) /\
      In (k, oa, ob) (join_group k (rows_at k l) (rows_at k r)).
Proof.
  unfold merge_ordered. rewrite in_flat_map. split.
  - intros [k' [Hk H]]. destruct (join_group_inv _ _ _ _ _ _ H) as [-> _].
    split; [|assumption].
    apply (proj1 (sorted_keys_In _ _)) in Hk. now apply in_app_or.
  - intros [Hk H]. exists k. split; [|assumption].
    apply (proj2 (sorted_keys_In _ _)). now apply in_or_app.
Qed.

Lemma merge_ordered_keeps_left (k : date) (a : A) l r :
  In (k, a) l ->
  exists ob, In (k, Some a, ob) (merge_ordered l r) /\
             (~ In k (map fst r) -> ob = None).
Proof.
  intros Hin.
  assert (Hk : In k (map fst l)) by (change k with (fst (k, a)); now apply in_map).
  apply rows_at_In in Hin.
  destruct (rows_at k r) as [|b rs] eqn:Er.
  - exists None. split; [|reflexivity].
    apply merge_ordered_In. split; [now left|]. rewrite Er.
    now apply join_group_left.
  - exists (Some b). split.
    + apply merge_ordered_In. split; [now left|]. rewrite Er.
      apply join_group_both; [assumption|now left].
    + intros Hno. exfalso. apply Hno.
      assert (Hb : In b (rows_at k r)) by (rewrite Er; now left).
      apply rows_at_In in Hb. change k with (fst (k, b)). now apply in_map.
Qed.

Lemma merge_ordered_keeps_right (k : date) (b : B) l r :
  In (k, b) r ->
  exists oa, In (k, oa, Some b) (merge_ordered l r) /\
             (~ In k (map fst l) -> oa = None).
Proof.
  intros Hin.
  assert (Hk : In k (map fst r)) by (change k with (fst (k, b)); now apply in_map).
  apply rows_at_In in Hin.
  destruct (rows_at k l) as [|a ls] eqn:El.
  - exists None. split; [|reflexivity].
    apply merge_ordered_In. split; [now right|]. rewrite El.
    now apply join_group_right.
  - exists (Some a). split.
    + apply merge_ordered_In. split; [now right|]. rewrite El.
      apply join_group_both; [now left|assumption].
    + intros Hno. exfalso. apply Hno.
      assert (Ha : In a (rows_at k l)) by (rewrite El; now left).
      apply rows_at_In in Ha. change k with (fst (k, a)). now apply in_map.
Qed.

Lemma merge_ordered_inv (k : date) (oa : option A) (ob : option B) l r :
  In (k, oa, ob) (merge_ordered l r) ->
  (forall a, oa = Some a -> In (k, a) l) /\
  (forall b, ob = Some b -> In (k, b) r).
Proof.
  intros H. apply merge_ordered_In in H. destruct H as [_ H].
  destruct (join_group_inv _ _ _ _ _ _ H) as [_ [Ha Hb]].
  split; intros x Hx; apply rows_at_In; auto.
Qed.

End Join.

Section MergeClose.
Import pd Portfolio.

Variables ticker_df prices : Series.

Lemma merge_close_In (d : date) (v c : cell) :
  In (d, v, c) (merge_close ticker_df prices) ->
  (forall q, v = Some q -> In (d, Some q) ticker_df) /\
  (forall p, c = Some p -> In (d, Some p) prices).
Proof.
  unfold merge_close. intros H. apply in_map_iff in H.
  destruct H as [[[k oa] ob] [[= <- <- <-] Hin]].
  destruct (merge_ordered_inv _ _ _ _ _ Hin) as [Ha Hb].
  split.
  - intros q Hq. destruct oa as [a|]; [|discriminate].
    simpl in Hq. subst a. now apply Ha.
  - intros p Hp. destruct ob as [b|]; [|discriminate].
    simpl in Hp. subst b. now apply Hb.
Qed.

(** C3 (amended).  The merge of the split-adjusted quantity series with
    the price series is an outer join on date: every row of the quantity
    series and every row of the price series has a record; a date of the
    quantity series for which the provider supplies no price is kept,
    with an undefined price; and a record carries a defined price only
    when the provider supplies that price for that very date (prices are
    never forward-filled). *)
Theorem C3_price_merge_is_outer :
  let merged := merge_close ticker_df prices in
  (forall d q, In (d, q) ticker_df ->
     exists c, In (d, q, c) merged /\ (~ In d (map fst prices) -> c = None)) /\
  (forall d p, In (d, p) prices ->
     exists v, In (d, v, p) merged /\ (~ In d (map fst ticker_df) -> v = None)) /\
  (forall d v p, In (d, v, Some p) merged -> In (d, Some p) prices).
Proof.
  cbv zeta. split; [|split].
  - intros d q Hin.
    destruct (merge_ordered_keeps_left d q ticker_df prices Hin) as [ob [H Hno]].
    exists (join_cell ob). split.
    + unfold merge_close. apply in_map_iff. exists (d, Some q, ob). now split.
    + intros Hd. now rewrite (Hno Hd).
  - intros d p Hin.
    destruct (merge_ordered_keeps_right d p ticker_df prices Hin) as [oa [H Hno]].
    exists (join_cell oa). split.
    + unfold merge_close. apply in_map_iff. exists (d, oa, Some p). now split.
    + intros Hd. now rewrite (Hno Hd).
  - intros d v p H. apply merge_close_In in H. destruct H as [_ H]. now apply H.
Qed.

End MergeClose.

Lemma C3_price_merge_is_outer_witness :
  let ticker_df := [(1, Some (Z2Qc 100)); (2, Some (Z2Qc 100)); (3, Some (Z2Qc 100))] in
  let prices := flat_price 12 [1; 3] in
  In (2, Some (Z2Qc 100), None) (Portfolio.merge_close ticker_df prices).
Proof.
  intros ticker_df prices.
  destruct (C3_price_merge_is_outer ticker_df prices) as [Hleft _].
  destruct (Hleft 2 (Some (Z2Qc 100))) as [c [Hin Hnone]].
  - right. left. reflexivity.
  - rewrite Hnone in Hin; [exact Hin|].
    simpl. intros [H|[H|[]]]; discriminate H.
Defined.

(** C3, as claimed, fails: with one buy on day 1 and prices on days 1 and
    3 only, the table has a record for day 2, its quantity defined and
    its price undefined. *)
Lemma C3_counterexample :
  option_map (fun r => (notna (Volume r), notna (Close r)))
             (record_at 2 "ABC" (table_of scenario_price_gap))
  = Some (true, false).
Proof. vm_compute. reflexivity. Qed.


(** C7, as claimed, fails: when the lookup of one instrument fails with
    an error other than [TypeError] the whole build is aborted. *)
Lemma C7_counterexample :
  fst scenario_provider_down = Raise (OtherError "ConnectionError").
Proof. vm_compute. reflexivity. Qed.

(** C4, as claimed, fails: the second instrument is first traded on day
    3, yet the table has a record for it on day 1 (the price of that day
    with an undefined quantity). *)
Lemma C4_counterexample :
  map fst (Trades.by_ticker_volume [trade 1 "AAA" 100; trade 3 "BBB" 50] "BBB") = [3] /\
  option_map (fun r => (notna (Volume r), notna (Close r)))
             (record_at 1 "BBB" (table_of scenario_two_tickers))
  = Some (false, true).
Proof. split; vm_compute; reflexivity. Qed.

(** ** The ledger access and the date range of the repository *)

Lemma date_list_NoDup (start stop : date) : NoDup (datehandler.date_list start stop).
Proof.
  unfold datehandler.date_list. apply Injective_map_NoDup.
  - intros i j H. lia.
  - apply seq_NoDup.
Qed.


Lemma sumv_pointwise {K} (f g : K -> Qc) (ks : list K) :
  sumv (map (fun k => f k + g k)%Qc ks) = (sumv (map f ks) + sumv (map g ks))%Qc.
Proof.
  induction ks as [|k ks IH]; simpl; [ring|]. rewrite IH. ring.
Qed.

Lemma sumv_null {K} (f : K -> Qc) (ks : list K) :
  (forall k, f k = 0%Qc) -> sumv (map f ks) = 0%Qc.
Proof.
  intros H. induction ks as [|k ks IH]; [reflexivity|].
  cbn [map sumv fold_right]. fold (sumv (map f ks)). rewrite H, IH. ring.
Qed.

Lemma sumv_indicator (x : date) (v : Qc) (ks : list date) :
  NoDup ks -> In x ks ->
  sumv (map (fun k => if x =? k then v else 0%Qc) ks) = v.
Proof.
  induction 1 as [|k ks Hk ND IH]; intros Hin; [contradiction|].
  cbn [map sumv fold_right]. fold (sumv (map (fun k => if x =? k then v else 0%Qc) ks)).
  destruct (x =? k) eqn:E.
  - apply Z.eqb_eq in E. subst k.
    assert (Hz : sumv (map (fun k => if x =? k then v else 0%Qc) ks) = 0%Qc).
    { clear IH ND Hin. induction ks as [|k ks IH]; [reflexivity|].
      cbn [map sumv fold_right].
      fold (sumv (map (fun k => if x =? k then v else 0%Qc) ks)).
      destruct (x =? k) eqn:E.
      - apply Z.eqb_eq in E. subst k. exfalso. apply Hk. now left.
      - rewrite IH; [ring|]. intros H. apply Hk. now right. }
    rewrite Hz. ring.
  - apply Z.eqb_neq in E. destruct Hin as [->|Hin]; [contradiction|].
    rewrite (IH Hin). ring.
Qed.




Lemma by_ticker_volume_NoDup (all : list TransactionEvent) (ticker : string) :
  NoDup (map fst (Trades.by_ticker_volume all ticker)).
Proof.
  unfold Trades.by_ticker_volume. rewrite map_map. cbn [fst]. rewrite map_id.
  apply sorted_NoDup, sorted_keys_sorted.
Qed.

(** ** The portfolio table *)

Section Table.
Import pd Portfolio.

Variable by_ticker_volume : string -> list (date * Qc).
Variable date_list : date -> date -> list date.
Variable close : string -> Series.
Variable yf_actions : string -> outcome (list Action).

Lemma cell_mul_defined (v c : cell) :
  cell_mul v c <> None <-> v <> None /\ c <> None.
Proof.
  destruct v, c; simpl; split; try intros [? ?]; try split; congruence.
Qed.

(** C9.  Every record of the table returned by [build] has its value
    equal to its quantity times its price, and the value is defined
    exactly when both the quantity and the price are. *)
Theorem C9_value_is_quantity_times_price
  (trades : list TransactionEvent) (today : date)
  (log log' : list string) (table : list HoldingRow) :
  build by_ticker_volume date_list close yf_actions trades today log = (Ok table, log') ->
  Forall (fun r =>
            Value r = cell_mul (Volume r) (Close r) /\
            (forall q p, Volume r = Some q -> Close r = Some p ->
                         Value r = Some (q * p)%Qc) /\
            (Value r <> None <-> Volume r <> None /\ Close r <> None)) table.
Proof.
  intros H. apply build_Ok in H. destruct H as [first [rest [_ ->]]].
  apply Forall_forall. intros r Hr. apply in_map_iff in Hr.
  destruct Hr as [r0 [<- _]]. cbn [assign_value Value Volume Close].
  split; [reflexivity|]. split.
  - intros q p -> ->. reflexivity.
  - apply cell_mul_defined.
Qed.

Lemma adjusted_series_defined (df : Series) (ticker : string) (d : date) (v : Qc) :
  In (d, Some v) (adjusted_series yf_actions df ticker) ->
  exists q, In (d, Some q) df.
Proof.
  unfold adjusted_series.
  destruct (yf_actions (ticker ++ ".AX")%string) as [a|e]; [|now exists v].
  destruct (has_split a); [|now exists v].
  rewrite split_adjust_rows. intros Hin. apply in_map_iff in Hin.
  destruct Hin as [[d' c] [Heq Hin]]. unfold adjusted_row in Heq. cbn [fst snd] in Heq.
  destruct (replace0 c) as [q|] eqn:Ec; [|discriminate].
  injection Heq as -> _. apply replace0_Some in Ec. destruct Ec as [-> _].
  now exists q.
Qed.

Lemma quantity_series_from_first_trade (vol : list (date * Qc)) (p_dates : list date)
      (d : date) (c : cell) :
  NoDup (map fst vol) -> NoDup p_dates ->
  In (d, c) (quantity_series vol p_dates) ->
  exists e, In e (map fst vol) /\ e <= d.
Proof.
  intros NDv NDp Hin. unfold quantity_series in Hin.
  apply dropna_In in Hin. destruct Hin as [Hin Hc].
  rewrite (daily_quantity_keyed vol NDv p_dates NDp) in Hin.
  apply in_map_iff in Hin. destruct Hin as [k [[= <- <-] _]].
  unfold quantity_upto, traded_upto in Hc.
  destruct (filter (fun r => fst r <=? k) vol) as [|r l] eqn:Ef; [now elim Hc|].
  assert (Hr : In r (filter (fun r => fst r <=? k) vol)) by (rewrite Ef; now left).
  apply filter_In in Hr. destruct Hr as [Hr Hle].
  exists (fst r). split; [now apply in_map|now apply Z.leb_le].
Qed.

(** C4 (amended).  With one net volume per trade date and a
    duplicate-free date range, the quantity series of an instrument has
    no row before its first trade date, and no record of the table
    carries a defined quantity for a date strictly before the first trade
    date of its instrument: a record of such a date - the outer join with
    the prices can produce one - has an undefined quantity and value. *)
Theorem C4_no_quantity_before_first_trade
  (trades : list TransactionEvent) (today : date)
  (log log' : list string) (table : list HoldingRow) :
  (forall t, NoDup (map fst (by_ticker_volume t))) ->
  (forall a b, NoDup (date_list a b)) ->
  build by_ticker_volume date_list close yf_actions trades today log = (Ok table, log') ->
  (forall t p_dates d c,
     NoDup p_dates ->
     In (d, c) (quantity_series (by_ticker_volume t) p_dates) ->
     exists e, In e (map fst (by_ticker_volume t)) /\ e <= d) /\
  (forall r, In r table ->
     (forall e, In e (map fst (by_ticker_volume (Ticker r))) -> Date r < e) ->
     Volume r = None /\ Value r = None).
Proof.
  intros NDv NDp H. split.
  - intros t p_dates d c NDp' Hin.
    now apply (quantity_series_from_first_trade _ p_dates d c (NDv t) NDp').
  - apply build_Ok in H. destruct H as [first [rest [_ ->]]].
    intros r Hr Hbefore. apply in_map_iff in Hr. destruct Hr as [r0 [<- Hr0]].
    apply (proj1 (sort_index_In _ _)) in Hr0. apply in_flat_map in Hr0.
    destruct Hr0 as [t [_ Hr0]]. unfold frame_of in Hr0.
    apply in_map_iff in Hr0. destruct Hr0 as [[[d v] c] [<- Hrow]].
    cbn [assign_value with_ticker Volume Value Ticker Date
         row_volume row_close row_ticker row_date fst snd] in *.
    destruct v as [q|]; [exfalso|split; reflexivity].
    apply merge_close_In in Hrow. destruct Hrow as [Hv _].
    specialize (Hv q eq_refl). apply adjusted_series_defined in Hv.
    destruct Hv as [q0 Hq0].
    destruct (quantity_series_from_first_trade _ _ d (Some q0) (NDv t) (NDp _ _) Hq0)
      as [e [He Hle]].
    specialize (Hbefore e He). lia.
Qed.

Lemma for_tickers_raises (p_dates : list date) (tickers : list string) (t : string) (e : exn) :
  In t tickers ->
  yf_actions (t ++ ".AX")%string = Raise e -> e <> TypeError ->
  forall (acc : list TickerRow) (log : list string),
  exists e' log',
    for_tickers by_ticker_volume close yf_actions p_dates tickers acc log
    = (Raise e', log').
Proof.
  intros Hin Hyf Hne.
  induction tickers as [|t0 ts IH]; intros acc log; [contradiction|].
  cbn [for_tickers]. unfold bind at 1, ticker_frame, bind at 1.
  destruct (stocksplits yf_actions (quantity_series (by_ticker_volume t0) p_dates) t0 log)
    as [[adj|e0] log1] eqn:Es.
  - unfold ret at 1. destruct Hin as [->|Hin].
    + rewrite (stocksplits_propagates yf_actions _ t log e Hyf Hne) in Es. discriminate.
    + apply (IH Hin).
  - exists e0, log1. reflexivity.
Qed.

(** C7 (amended).  When the corporate-actions lookup of an instrument
    raises a [TypeError], [stocksplits] returns the quantity series
    unmodified after printing a message and the instrument contributes
    its unadjusted quantities merged with its prices; when no lookup
    fails with another kind of error [build] returns the table of all
    instruments; a lookup failing with another kind of error is not
    caught and makes [build] raise. *)
Theorem C7_type_error_fails_soft
  (trades : list TransactionEvent) (today : date) (log : list string)
  (first : TransactionEvent) (rest : list TransactionEvent) :
  trades = first :: rest ->
  date_list (ev_date first) today <> [] ->
  let p_dates := date_list (ev_date first) today in
  let tickers := sorted_set (map ev_ticker trades) in
  (forall t df log0,
     yf_actions (t ++ ".AX")%string = Raise TypeError ->
     stocksplits yf_actions df t log0
     = (Ok df, (log0 ++ [checking t]) ++ [went_wrong])) /\
  (forall t,
     yf_actions (t ++ ".AX")%string = Raise TypeError ->
     frame_of by_ticker_volume close yf_actions p_dates t
     = map (with_ticker t)
           (merge_close (quantity_series (by_ticker_volume t) p_dates) (close t))) /\
  ((forall t e, In t tickers ->
                yf_actions (t ++ ".AX")%string = Raise e -> e = TypeError) ->
   exists log',
     build by_ticker_volume date_list close yf_actions trades today log
     = (Ok (map assign_value
              (sort_index
                 (flat_map (frame_of by_ticker_volume close yf_actions p_dates) tickers))),
        log')) /\
  (forall t e, In t tickers ->
               yf_actions (t ++ ".AX")%string = Raise e -> e <> TypeError ->
   exists e' log',
     build by_ticker_volume date_list close yf_actions trades today log
     = (Raise e', log')).
Proof.
  intros Htrades Hdates p_dates tickers. split; [|split; [|split]].
  - intros t df log0 Hyf. now apply stocksplits_type_error.
  - intros t Hyf. unfold frame_of, adjusted_series. now rewrite Hyf.
  - intros Hsoft. now apply build_soft with (rest := rest).
  - intros t e Hin Hyf Hne. subst trades p_dates. unfold build.
    destruct (date_list (ev_date first) today) as [|d0 ds] eqn:Ep; [contradiction|].
    unfold bind at 1.
    destruct (for_tickers_raises (d0 :: ds) tickers t e Hin Hyf Hne [] log)
      as [e' [log' Hf]].
    fold tickers. rewrite Hf. exists e', log'. reflexivity.
Qed.

End Table.

Lemma C9_value_is_quantity_times_price_witness :
  Forall (fun r => Value r = cell_mul (Volume r) (Close r))
         (table_of scenario_two_tickers).
Proof.
  assert (H : Portfolio.build
                (Trades.by_ticker_volume [trade 1 "AAA" 100; trade 3 "BBB" 50])
                datehandler.date_list
                (fun _ => flat_price 12 [1; 2; 4]) (fun _ => Ok [])
                [trade 1 "AAA" 100; trade 3 "BBB" 50] 4 []
              = (Ok (table_of scenario_two_tickers), snd scenario_two_tickers))
    by (vm_compute; reflexivity).
  apply C9_value_is_quantity_times_price in H.
  eapply Forall_impl; [|exact H]. intros r [Hr _]. exact Hr.
Defined.

Lemma C4_no_quantity_before_first_trade_witness :
  option_map Volume (record_at 1 "BBB" (table_of scenario_two_tickers)) = Some None.
Proof.
  assert (H : Portfolio.build
                (Trades.by_ticker_volume [trade 1 "AAA" 100; trade 3 "BBB" 50])
                datehandler.date_list
                (fun _ => flat_price 12 [1; 2; 4]) (fun _ => Ok [])
                [trade 1 "AAA" 100; trade 3 "BBB" 50] 4 []
              = (Ok (table_of scenario_two_tickers), snd scenario_two_tickers))
    by (vm_compute; reflexivity).
  destruct (C4_no_quantity_before_first_trade _ _ _ _ _ _ _ _ _
              (by_ticker_volume_NoDup _) date_list_NoDup H) as [_ Htable].
  destruct (record_at 1 "BBB" (table_of scenario_two_tickers)) as [r|] eqn:E.
  - cbn [option_map]. f_equal. unfold record_at in E. apply find_some in E.
    destruct E as [Hin Hkey]. apply andb_true_iff in Hkey. destruct Hkey as [Hd Ht].
    apply Z.eqb_eq in Hd. apply String.eqb_eq in Ht.
    apply (Htable r Hin). intros e He. rewrite Ht in He. rewrite Hd.
    vm_compute in He. destruct He as [<-|[]]. reflexivity.
  - vm_compute in E. discriminate E.
Defined.

Lemma C7_type_error_fails_soft_witness :
  (forall df log0,
     Portfolio.stocksplits type_error_for_first df "AAA" log0
     = (Ok df, (log0 ++ [checking "AAA"]) ++ [went_wrong])) /\
  exists table log', scenario_type_error = (Ok table, log').
Proof.
  destruct (C7_type_error_fails_soft
              (Trades.by_ticker_volume [trade 1 "AAA" 100; trade 3 "BBB" 50])
              datehandler.date_list (fun _ => flat_price 12 [1; 2; 4])
              type_error_for_first
              [trade 1 "AAA" 100; trade 3 "BBB" 50] 4 []
              (trade 1 "AAA" 100) [trade 3 "BBB" 50] eq_refl)
    as [Hsplit [_ [Hbuild _]]].
  - vm_compute. discriminate.
  - split.
    + intros df log0. apply Hsplit. reflexivity.
    + destruct Hbuild as [log' Hbuild].
      * intros t e Hin. vm_compute in Hin. destruct Hin as [<-|[<-|[]]].
        -- vm_compute. intros [= <-]. reflexivity.
        -- vm_compute. discriminate.
      * eexists. exists log'. exact Hbuild.
Defined.

(** ** Order of ticker names and of the (Date, Ticker) index *)

Section TickerOrder.
Import Portfolio.

Lemma compare_as_OT (a b : string) : String.compare a b = String_as_OT.compare a b.
Proof.
  revert b. induction a as [|x a IH]; intros [|y b]; reflexivity.
Qed.

Lemma compare_lt_trans (a b c : string) :
  String.compare a b = Lt -> String.compare b c = Lt -> String.compare a c = Lt.
Proof.
  rewrite !compare_as_OT. intros Hab Hbc.
  exact (StrictOrder_Transitive (R := String_as_OT.lt) a b c Hab Hbc).
Qed.

Lemma compare_refl (a : string) : String.compare a a = Eq.
Proof.
  destruct (String.compare a a) eqn:E; [reflexivity| |].
  - rewrite compare_as_OT in E.
    destruct (StrictOrder_Irreflexive (R := String_as_OT.lt) a E).
  - pose proof (String.compare_antisym a a) as H. rewrite E in H. discriminate H.
Qed.

Lemma compare_gt_lt (a b : string) :
  String.compare a b = Gt -> String.compare b a = Lt.
Proof.
  intros H. rewrite String.compare_antisym, H. reflexivity.
Qed.

Lemma leb_trans (a b c : string) :
  String.leb a b = true -> String.leb b c = true -> String.leb a c = true.
Proof.
  unfold String.leb.
  destruct (String.compare a b) eqn:Eab; [|intros _|discriminate].
  - apply String.compare_eq_iff in Eab. now subst.
  - destruct (String.compare b c) eqn:Ebc; [|intros _|discriminate].
    + apply String.compare_eq_iff in Ebc. subst. now rewrite Eab.
    + now rewrite (compare_lt_trans a b c Eab Ebc).
Qed.

Lemma insert_ticker_In (t x : string) (ts : list string) :
  In x (insert_ticker t ts) <-> x = t \/ In x ts.
Proof.
  induction ts as [|t' ts IH]; simpl; [intuition|].
  destruct (String.compare t t') eqn:E; simpl.
  - apply String.compare_eq_iff in E. subst. intuition.
  - intuition.
  - rewrite IH. intuition.
Qed.

Lemma sorted_set_In (x : string) (ts : list string) :
  In x (sorted_set ts) <-> In x ts.
Proof.
  induction ts as [|t ts IH]; simpl; [tauto|].
  rewrite insert_ticker_In, IH. intuition.
Qed.

Lemma insert_ticker_sorted (t : string) (ts : list string) :
  StronglySorted (fun a b => String.compare a b = Lt) ts ->
  StronglySorted (fun a b => String.compare a b = Lt) (insert_ticker t ts).
Proof.
  induction 1 as [|t' ts Hs IH Hall]; simpl; [repeat constructor|].
  destruct (String.compare t t') eqn:E.
  - now constructor.
  - constructor; [now constructor|]. constructor; [assumption|].
    eapply Forall_impl; [|exact Hall]. intros c Hc. now apply (compare_lt_trans t t' c).
  - constructor; [assumption|]. apply Forall_forall. intros x Hx.
    apply (proj1 (insert_ticker_In _ _ _)) in Hx. destruct Hx as [->|Hx].
    + now apply compare_gt_lt.
    + rewrite Forall_forall in Hall. now apply Hall.
Qed.

Lemma sorted_set_sorted (ts : list string) :
  StronglySorted (fun a b => String.compare a b = Lt) (sorted_set ts).
Proof.
  induction ts; simpl; [constructor|now apply insert_ticker_sorted].
Qed.

Lemma sorted_set_NoDup (ts : list string) : NoDup (sorted_set ts).
Proof.
  induction (sorted_set_sorted ts) as [|t l Hs IH Hall]; constructor; [|assumption].
  intros Hin. rewrite Forall_forall in Hall. apply Hall in Hin.
  rewrite compare_refl in Hin. discriminate Hin.
Qed.

Lemma insert_row_perm (r : TickerRow) (l : list TickerRow) :
  Permutation (insert_row r l) (r :: l).
Proof.
  induction l as [|r' l IH]; simpl; [reflexivity|].
  destruct (index_leb r r'); [reflexivity|].
  rewrite IH. apply perm_swap.
Qed.

Lemma sort_index_perm (l : list TickerRow) : Permutation (sort_index l) l.
Proof.
  induction l as [|r l IH]; simpl; [reflexivity|].
  rewrite insert_row_perm. now constructor.
Qed.

Lemma index_leb_total (a b : TickerRow) : index_leb a b = false -> index_leb b a = true.
Proof.
  unfold index_leb. intros H. apply orb_false_iff in H. destruct H as [Hlt H].
  apply Z.ltb_ge in Hlt. destruct (row_date b <? row_date a) eqn:E; [reflexivity|].
  apply Z.ltb_ge in E. assert (Heq : row_date a = row_date b) by lia.
  rewrite Heq, Z.eqb_refl in *. simpl in *.
  destruct (String.leb_total (row_ticker a) (row_ticker b)) as [H'|H']; congruence.
Qed.

Lemma index_leb_trans (a b c : TickerRow) :
  index_leb a b = true -> index_leb b c = true -> index_leb a c = true.
Proof.
  unfold index_leb. intros Hab Hbc.
  apply orb_true_iff in Hab. apply orb_true_iff in Hbc. apply orb_true_iff.
  destruct Hab as [Hab|Hab]; destruct Hbc as [Hbc|Hbc];
    rewrite ?andb_true_iff, ?Z.ltb_lt, ?Z.eqb_eq in *.
  - left. lia.
  - left. lia.
  - left. lia.
  - right. destruct Hab as [E1 L1], Hbc as [E2 L2]. split; [lia|].
    now apply (leb_trans _ (row_ticker b)).
Qed.

Lemma insert_row_sorted (r : TickerRow) (l : list TickerRow) :
  StronglySorted (fun a b => index_leb a b = true) l ->
  StronglySorted (fun a b => index_leb a b = true) (insert_row r l).
Proof.
  induction 1 as [|r' l Hs IH Hall]; simpl; [repeat constructor|].
  destruct (index_leb r r') eqn:E.
  - constructor; [now constructor|]. constructor; [assumption|].
    eapply Forall_impl; [|exact Hall]. intros c Hc. now apply (index_leb_trans r r' c).
  - constructor; [assumption|]. apply Forall_forall. intros x Hx.
    apply (proj1 (insert_row_In _ _ _)) in Hx. destruct Hx as [->|Hx].
    + now apply index_leb_total.
    + rewrite Forall_forall in Hall. now apply Hall.
Qed.

Lemma sort_index_sorted (l : list TickerRow) :
  StronglySorted (fun a b => index_leb a b = true) (sort_index l).
Proof.
  induction l; simpl; [constructor|now apply insert_row_sorted].
Qed.

End TickerOrder.

(** ** The quantity series of one instrument *)

Lemma StronglySorted_filter {A} (R : A -> A -> Prop) (f : A -> bool) (l : list A) :
  StronglySorted R l -> StronglySorted R (filter f l).
Proof.
  induction 1 as [|a l Hs IH Hall]; simpl; [constructor|].
  destruct (f a); [|assumption]. constructor; [assumption|].
  rewrite Forall_forall in *. intros x Hx. apply filter_In in Hx. now apply Hall.
Qed.

Lemma StronglySorted_map {A B} (R : A -> A -> Prop) (R' : B -> B -> Prop)
      (f : A -> B) (l : list A) :
  StronglySorted R l ->
  (forall a b, R a b -> R' (f a) (f b)) ->
  StronglySorted R' (map f l).
Proof.
  intros Hs Hf. induction Hs as [|a l Hs IH Hall]; [constructor|].
  cbn [map]. constructor; [assumption|].
  rewrite Forall_forall in *. intros x Hx. apply in_map_iff in Hx.
  destruct Hx as [x0 [<- Hx0]]. now apply Hf, Hall.
Qed.

Lemma map_fst_filter_keyed {V} (g : date -> V) (f : date * V -> bool) (ks : list date) :
  map fst (filter f (map (fun k => (k, g k)) ks)) = filter (fun k => f (k, g k)) ks.
Proof.
  induction ks as [|k ks IH]; simpl; [reflexivity|].
  destruct (f (k, g k)); simpl; congruence.
Qed.

Lemma quantity_series_increasing (vol : list (date * Qc)) (p_dates : list date) :
  NoDup (map fst vol) -> NoDup p_dates ->
  StronglySorted Z.lt (map fst (Portfolio.quantity_series vol p_dates)).
Proof.
  intros NDv NDp. unfold Portfolio.quantity_series, pd.dropna.
  rewrite (daily_quantity_keyed vol NDv p_dates NDp), map_fst_filter_keyed.
  apply StronglySorted_filter, sorted_keys_sorted.
Qed.

Lemma quantity_series_row (vol : list (date * Qc)) (p_dates : list date) (d : date) :
  NoDup (map fst vol) -> NoDup p_dates ->
  In d p_dates \/ In d (map fst vol) ->
  (exists e, In e (map fst vol) /\ e <= d) ->
  In (d, Some (sumv (traded_upto vol d))) (Portfolio.quantity_series vol p_dates).
Proof.
  intros NDv NDp Hd [e [He Hle]]. unfold Portfolio.quantity_series.
  apply dropna_In. split; [|discriminate].
  rewrite (daily_quantity_keyed vol NDv p_dates NDp).
  apply in_map_iff. exists d. split.
  - f_equal. unfold quantity_upto. apply in_map_iff in He.
    destruct He as [r [<- Hr]]. apply (total_nonempty _ (snd r)).
    unfold traded_upto. apply in_map, filter_In. split; [assumption|].
    now apply Z.leb_le.
  - apply (proj2 (sorted_keys_In _ _)), in_or_app. tauto.
Qed.

(** The quantity series lists its dates in strictly increasing order,
    each with a defined quantity. *)
Theorem quantity_series_ordered (vol : list (date * Qc)) (p_dates : list date) :
  NoDup (map fst vol) -> NoDup p_dates ->
  StronglySorted Z.lt (map fst (Portfolio.quantity_series vol p_dates)) /\
  Forall (fun r => snd r <> None) (Portfolio.quantity_series vol p_dates).
Proof.
  intros NDv NDp. split.
  - now apply quantity_series_increasing.
  - apply Forall_forall. intros [d c] Hin. apply dropna_In in Hin. now destruct Hin.
Qed.

Lemma quantity_series_ordered_witness :
  StronglySorted Z.lt
    (map fst (Portfolio.quantity_series [(5, Z2Qc (-40)); (3, Z2Qc 100)]
                                        (datehandler.date_list 1 7))).
Proof.
  apply (quantity_series_ordered [(5, Z2Qc (-40)); (3, Z2Qc 100)]
                                 (datehandler.date_list 1 7)).
  - distinct_dates.
  - distinct_dates.
Defined.

(** From the first trade date on the quantity series has no gap: every
    date of the range, and every trade date, that is not before the first
    trade has a row, carrying the sum of the volumes traded up to it. *)
Theorem quantity_series_dense
  (vol : list (date * Qc)) (p_dates : list date) (d : date) :
  NoDup (map fst vol) -> NoDup p_dates ->
  In d p_dates \/ In d (map fst vol) ->
  (exists e, In e (map fst vol) /\ e <= d) ->
  In (d, Some (sumv (traded_upto vol d))) (Portfolio.quantity_series vol p_dates).
Proof.
  intros NDv NDp Hd He. now apply quantity_series_row.
Qed.

Lemma quantity_series_dense_witness :
  let vol := [(3, Z2Qc 100); (5, Z2Qc (-40))] in
  In (4, Some (sumv (traded_upto vol 4)))
     (Portfolio.quantity_series vol (datehandler.date_list 1 7)).
Proof.
  intros vol. apply quantity_series_dense.
  - distinct_dates.
  - distinct_dates.
  - left. vm_compute. tauto.
  - exists 3. split; [now left|]. vm_compute. discriminate.
Defined.

(** On and after the last trade date the quantity is the net of all
    traded volumes. *)
Theorem quantity_after_last_trade
  (vol : list (date * Qc)) (p_dates : list date) (d : date) :
  NoDup (map fst vol) -> NoDup p_dates ->
  vol <> [] ->
  In d p_dates ->
  (forall e, In e (map fst vol) -> e <= d) ->
  In (d, Some (sumv (map snd vol))) (Portfolio.quantity_series vol p_dates).
Proof.
  intros NDv NDp Hne Hd Hlast.
  assert (Hall : traded_upto vol d = map snd vol).
  { unfold traded_upto. f_equal.
    assert (Hf : forall l : list (date * Qc),
               (forall r, In r l -> (fst r <=? d) = true) ->
               filter (fun r => fst r <=? d) l = l).
    { induction l as [|r l IH]; intros H; [reflexivity|]. simpl.
      rewrite (H r (or_introl eq_refl)). f_equal. apply IH. intros; apply H; now right. }
    apply Hf. intros r Hr. apply Z.leb_le, Hlast. now apply in_map. }
  rewrite <- Hall. apply quantity_series_row; try assumption; [now left|].
  destruct vol as [|r l]; [contradiction|].
  exists (fst r). split; [now left|]. apply Hlast. now left.
Qed.

Lemma quantity_after_last_trade_witness :
  let vol := [(3, Z2Qc 100); (5, Z2Qc (-40))] in
  In (7, Some (sumv (map snd vol)))
     (Portfolio.quantity_series vol (datehandler.date_list 1 7)).
Proof.
  intros vol. apply quantity_after_last_trade.
  - distinct_dates.
  - distinct_dates.
  - discriminate.
  - vm_compute. tauto.
  - intros e He. vm_compute in He. destruct He as [<-|[<-|[]]]; vm_compute; discriminate.
Defined.

(** ** What split adjustment keeps *)

Lemma adjusted_series_dates (yf_actions : string -> outcome (list Action))
      (df : pd.Series) (ticker : string) :
  map fst (adjusted_series yf_actions df ticker) = map fst df.
Proof.
  unfold adjusted_series.
  destruct (yf_actions (ticker ++ ".AX")%string) as [a|e]; [|reflexivity].
  destruct (Portfolio.has_split a); [|reflexivity].
  rewrite split_adjust_rows. apply adjusted_dates.
Qed.

(** Whenever [stocksplits] returns, the series it returns has exactly
    the dates of the series it was given, in the same order: no date is
    added, dropped or moved. *)
Theorem stocksplits_keeps_dates
  (yf_actions : string -> outcome (list Action))
  (df out : pd.Series) (ticker : string) (log log' : list string) :
  Portfolio.stocksplits yf_actions df ticker log = (Ok out, log') ->
  map fst out = map fst df.
Proof.
  intros H. apply stocksplits_Ok in H. subst out. apply adjusted_series_dates.
Qed.

Lemma stocksplits_keeps_dates_witness :
  let df := [(1, Some (Z2Qc 100)); (2, Some 0%Qc); (3, Some (Z2Qc 7))] in
  map fst (adjusted_series (fun _ => Ok [mkAction 2 0%Qc (Z2Qc 2)]) df "ABC")
  = map fst df.
Proof.
  intros df.
  apply (stocksplits_keeps_dates (fun _ => Ok [mkAction 2 0%Qc (Z2Qc 2)]) df
           (adjusted_series (fun _ => Ok [mkAction 2 0%Qc (Z2Qc 2)]) df "ABC")
           "ABC" [] [checking "ABC"]).
  reflexivity.
Defined.

Lemma prodv_positive (l : list Qc) :
  (forall x, In x l -> (0 < x)%Qc) -> (0 < prodv l)%Qc.
Proof.
  induction l as [|x l IH]; intros H; [reflexivity|].
  cbn [prodv fold_right]. fold (prodv l).
  assert (Hx : (0 < x)%Qc) by (apply H; now left).
  assert (Hl : (0 < prodv l)%Qc) by (apply IH; intros; apply H; now right).
  replace 0%Qc with (0 * prodv l)%Qc by ring.
  now apply Qcmult_lt_compat_r.
Qed.

Lemma prodv_at_least_one (l : list Qc) :
  (forall x, In x l -> (1 <= x)%Qc) -> (1 <= prodv l)%Qc.
Proof.
  induction l as [|x l IH]; intros H; [apply Qcle_refl|].
  cbn [prodv fold_right]. fold (prodv l).
  assert (Hx : (1 <= x)%Qc) by (apply H; now left).
  assert (Hl : (1 <= prodv l)%Qc) by (apply IH; intros; apply H; now right).
  apply Qcle_trans with (y := (1 * prodv l)%Qc).
  - now rewrite Qcmult_1_l.
  - apply Qcmult_le_compat_r; [assumption|].
    apply Qcle_trans with (y := 1%Qc); [discriminate|assumption].
Qed.

Lemma split_factor_cases (df_actions : list Action) (d : date) :
  split_factor df_actions d = 1%Qc \/
  exists a, In a df_actions /\ Stock_Splits a <> 0%Qc /\
            split_factor df_actions d = Stock_Splits a.
Proof.
  unfold split_factor.
  destruct (find (fun a => act_date a =? d) df_actions) as [a|] eqn:E; [|now left].
  apply find_some in E. destruct E as [Hin _].
  destruct (Qc_eqb (Stock_Splits a) 0) eqn:Ez; [now left|].
  right. exists a. split; [assumption|]. split; [now apply Qc_eqb_neq|reflexivity].
Qed.

Lemma ceilQc_positive (x : Qc) : (0 < x)%Qc -> (1 <= ceilQc x)%Qc.
Proof.
  intros H. unfold ceilQc, Qcle. cbn [this Q2Qc]. rewrite !Qred_correct.
  change 1%Q with (inject_Z 1). rewrite <- Zle_Qle.
  assert (Hc : (0 < inject_Z (Qceiling x))%Q).
  { apply Qlt_le_trans with (y := this x); [exact H|apply Qle_ceiling]. }
  change 0%Q with (inject_Z 0) in Hc. rewrite <- Zlt_Qlt in Hc. lia.
Qed.

(** A positive holding is never rounded away: when no announced split
    factor is negative, every date with a positive original quantity is
    reported, after adjustment, with a whole quantity of at least 1 -
    also after a reverse split that leaves less than one share. *)
Theorem positive_holding_stays_positive
  (yf_actions : string -> outcome (list Action))
  (df : pd.Series) (ticker : string) (log : list string) (df_actions : list Action)
  (d : date) (q : Qc) :
  yf_actions (ticker ++ ".AX")%string = Ok df_actions ->
  NoDup (map fst df) ->
  NoDup (map act_date df_actions) ->
  Portfolio.has_split df_actions = true ->
  (forall a, In a df_actions -> (0 <= Stock_Splits a)%Qc) ->
  In (d, Some q) df ->
  (0 < q)%Qc ->
  exists out v,
    fst (Portfolio.stocksplits yf_actions df ticker log) = Ok out /\
    pd.reindex out d = Some v /\
    v = Z2Qc (Qceiling (q * cumulative_factor df df_actions d)%Qc) /\
    (1 <= v)%Qc.
Proof.
  intros Hyf NDdf _ Hsplit Hpos Hin Hq.
  exists (map (adjusted_row df df_actions) df),
         (ceilQc (q * cumulative_factor df df_actions d)).
  rewrite (stocksplits_fetched yf_actions df ticker log df_actions Hyf), Hsplit.
  cbn [fst]. rewrite split_adjust_rows. split; [reflexivity|]. split; [|split].
  - rewrite (reindex_adjusted df df_actions d (Some q) NDdf Hin).
    unfold adjusted_row. cbn [fst snd].
    now rewrite (replace0_nonzero q (not_eq_sym (Qclt_not_eq _ _ Hq))).
  - reflexivity.
  - apply ceilQc_positive.
    assert (Hcf : (0 < cumulative_factor df df_actions d)%Qc).
    { unfold cumulative_factor. apply prodv_positive. intros x Hx.
      apply in_map_iff in Hx. destruct Hx as [e [<- _]].
      destruct (split_factor_cases df_actions e) as [->|[a [Ha [Hnz ->]]]];
        [reflexivity|].
      destruct (Qcle_lt_or_eq _ _ (Hpos a Ha)) as [Hlt|Heq]; [assumption|].
      now elim Hnz. }
    replace 0%Qc with (0 * cumulative_factor df df_actions d)%Qc by ring.
    now apply Qcmult_lt_compat_r.
Qed.

Lemma positive_holding_stays_positive_witness :
  let df := [(1, Some (Z2Qc 5)); (2, Some (Z2Qc 5))] in
  let df_actions := [mkAction 2 0%Qc (Q2Qc (1 # 10))] in
  exists out v,
    fst (Portfolio.stocksplits (fun _ => Ok df_actions) df "ABC" []) = Ok out /\
    pd.reindex out 2 = Some v /\ (1 <= v)%Qc.
Proof.
  intros df df_actions.
  destruct (positive_holding_stays_positive (fun _ => Ok df_actions) df "ABC" []
              df_actions 2 (Z2Qc 5) eq_refl)
    as [out [v [Hout [Hv [_ Hone]]]]].
  - distinct_dates.
  - distinct_dates.
  - reflexivity.
  - intros a [<-|[]]. vm_compute. discriminate.
  - apply has_row_In. vm_compute. reflexivity.
  - reflexivity.
  - exists out, v. repeat split; assumption.
Defined.

(** Forward splits never shrink a holding: when every announced split
    factor is at least 1 (0 marking "no split"), the adjusted quantity of
    a date with a positive original quantity is at least that quantity. *)
Theorem forward_splits_never_decrease
  (yf_actions : string -> outcome (list Action))
  (df : pd.Series) (ticker : string) (log : list string) (df_actions : list Action)
  (d : date) (q : Qc) :
  yf_actions (ticker ++ ".AX")%string = Ok df_actions ->
  NoDup (map fst df) ->
  NoDup (map act_date df_actions) ->
  Portfolio.has_split df_actions = true ->
  (forall a, In a df_actions -> Stock_Splits a = 0%Qc \/ (1 <= Stock_Splits a)%Qc) ->
  In (d, Some q) df ->
  (0 < q)%Qc ->
  exists out v,
    fst (Portfolio.stocksplits yf_actions df ticker log) = Ok out /\
    pd.reindex out d = Some v /\
    (q <= v)%Qc.
Proof.
  intros Hyf NDdf _ Hsplit Hfwd Hin Hq.
  exists (map (adjusted_row df df_actions) df),
         (ceilQc (q * cumulative_factor df df_actions d)).
  rewrite (stocksplits_fetched yf_actions df ticker log df_actions Hyf), Hsplit.
  cbn [fst]. rewrite split_adjust_rows. split; [reflexivity|]. split.
  - rewrite (reindex_adjusted df df_actions d (Some q) NDdf Hin).
    unfold adjusted_row. cbn [fst snd].
    now rewrite (replace0_nonzero q (not_eq_sym (Qclt_not_eq _ _ Hq))).
  - assert (Hcf : (1 <= cumulative_factor df df_actions d)%Qc).
    { unfold cumulative_factor. apply prodv_at_least_one. intros x Hx.
      apply in_map_iff in Hx. destruct Hx as [e [<- _]].
      destruct (split_factor_cases df_actions e) as [->|[a [Ha [Hnz ->]]]];
        [apply Qcle_refl|].
      destruct (Hfwd a Ha) as [Hz|Hge]; [now elim Hnz|assumption]. }
    apply Qcle_trans with (y := (q * cumulative_factor df df_actions d)%Qc);
      [|apply ceilQc_bounds].
    rewrite (Qcmult_comm q).
    apply Qcle_trans with (y := (1 * q)%Qc); [rewrite Qcmult_1_l; apply Qcle_refl|].
    apply Qcmult_le_compat_r; [assumption|now apply Qclt_le_weak].
Qed.

Lemma forward_splits_never_decrease_witness :
  let df := [(1, Some (Z2Qc 5)); (2, Some (Z2Qc 5))] in
  let df_actions := [mkAction 2 0%Qc (Q2Qc (3 # 2))] in
  exists out v,
    fst (Portfolio.stocksplits (fun _ => Ok df_actions) df "ABC" []) = Ok out /\
    pd.reindex out 2 = Some v /\ (Z2Qc 5 <= v)%Qc.
Proof.
  intros df df_actions.
  apply (forward_splits_never_decrease (fun _ => Ok df_actions) df "ABC" []
           df_actions 2 (Z2Qc 5) eq_refl).
  - distinct_dates.
  - distinct_dates.
  - reflexivity.
  - intros a [<-|[]]. right. vm_compute. discriminate.
  - apply has_row_In. vm_compute. reflexivity.
  - reflexivity.
Defined.

(** ** Outer join of frames with distinct dates *)

Lemma merge_ordered_keyed {A B} (l : list (date * A)) (r : list (date * B)) :
  NoDup (map fst l) -> NoDup (map fst r) ->
  pd.merge_ordered l r
  = map (fun k => (k, lookup k l, lookup k r))
        (pd.sorted_keys (map fst l ++ map fst r)).
Proof.
  intros NDl NDr. unfold pd.merge_ordered.
  assert (Hall : forall k, In k (pd.sorted_keys (map fst l ++ map fst r)) ->
                           In k (map fst l) \/ In k (map fst r)).
  { intros k Hk. apply (proj1 (sorted_keys_In _ _)) in Hk. now apply in_app_or. }
  induction (pd.sorted_keys (map fst l ++ map fst r)) as [|k ks IH]; [reflexivity|].
  cbn [flat_map map]. rewrite IH by (intros; apply Hall; now right).
  rewrite (rows_at_lookup k l NDl), (rows_at_lookup k r NDr).
  destruct (lookup k l) as [a|] eqn:El; destruct (lookup k r) as [b|] eqn:Er;
    try reflexivity.
  apply (proj1 (lookup_None _ _)) in El. apply (proj1 (lookup_None _ _)) in Er.
  destruct (Hall k (or_introl eq_refl)); contradiction.
Qed.

Lemma merge_close_dates (ticker_df prices : pd.Series) :
  NoDup (map fst ticker_df) -> NoDup (map fst prices) ->
  map (fun r => fst (fst r)) (Portfolio.merge_close ticker_df prices)
  = pd.sorted_keys (map fst ticker_df ++ map fst prices).
Proof.
  intros NDl NDr. unfold Portfolio.merge_close.
  rewrite (merge_ordered_keyed ticker_df prices NDl NDr), !map_map. cbn [fst].
  apply map_id.
Qed.

Lemma NoDup_map_fst_filter {V} (f : date * V -> bool) (l : list (date * V)) :
  NoDup (map fst l) -> NoDup (map fst (filter f l)).
Proof.
  induction l as [|r l IH]; simpl; intros ND; [constructor|].
  inversion ND as [|? ? Hr ND']; subst.
  destruct (f r); [|now apply IH]. simpl. constructor; [|now apply IH].
  intros Hin. apply Hr. apply in_map_iff in Hin. destruct Hin as [x [Hx Hin]].
  apply filter_In in Hin. rewrite <- Hx. apply in_map. now destruct Hin.
Qed.

(** ** The table as a whole *)

Section TableFacts.
Import pd Portfolio.

Variable by_ticker_volume : string -> list (date * Qc).
Variable date_list : date -> date -> list date.
Variable close : string -> Series.
Variable yf_actions : string -> outcome (list Action).

Lemma frame_of_ticker (p_dates : list date) (t : string) (r : TickerRow) :
  In r (frame_of by_ticker_volume close yf_actions p_dates t) -> row_ticker r = t.
Proof.
  unfold frame_of. intros H. apply in_map_iff in H. now destruct H as [x [<- _]].
Qed.

Lemma frame_of_dates (p_dates : list date) (t : string) :
  NoDup (map fst (by_ticker_volume t)) -> NoDup p_dates -> NoDup (map fst (close t)) ->
  map row_date (frame_of by_ticker_volume close yf_actions p_dates t)
  = sorted_keys (map fst (quantity_series (by_ticker_volume t) p_dates)
                 ++ map fst (close t)).
Proof.
  intros NDv NDp NDc. unfold frame_of. rewrite map_map. cbn [with_ticker row_date].
  rewrite merge_close_dates, adjusted_series_dates; [reflexivity| |assumption].
  rewrite adjusted_series_dates.
  apply sorted_NoDup. now apply quantity_series_increasing.
Qed.

Lemma key_le_index (a b : TickerRow) :
  index_leb a b = true <-> key_le (assign_value a) (assign_value b).
Proof.
  unfold index_leb, key_le. cbn [assign_value Date Ticker].
  rewrite orb_true_iff, andb_true_iff, Z.ltb_lt, Z.eqb_eq. reflexivity.
Qed.

(** The table returned by [build] is sorted by date and, within one
    date, by ticker name. *)
Theorem table_sorted_by_date_then_ticker
  (trades : list TransactionEvent) (today : date)
  (log log' : list string) (table : list HoldingRow) :
  build by_ticker_volume date_list close yf_actions trades today log = (Ok table, log') ->
  StronglySorted key_le table.
Proof.
  intros H. apply build_Ok in H. destruct H as [first [rest [_ ->]]].
  apply (StronglySorted_map (fun a b => index_leb a b = true)).
  - apply sort_index_sorted.
  - intros a b. apply key_le_index.
Qed.

Lemma NoDup_keys_flat_map (frames : string -> list TickerRow) (tickers : list string) :
  NoDup tickers ->
  (forall t r, In r (frames t) -> row_ticker r = t) ->
  (forall t, In t tickers -> NoDup (map row_date (frames t))) ->
  NoDup (map (fun r => (row_date r, row_ticker r)) (flat_map frames tickers)).
Proof.
  intros NDt Hticker Hdates.
  induction tickers as [|t ts IH]; [constructor|].
  inversion NDt as [|? ? Ht NDts]; subst.
  cbn [flat_map]. rewrite map_app. apply NoDup_app.
  - assert (ND : NoDup (map row_date (frames t))) by (apply Hdates; now left).
    assert (Hown : forall r, In r (frames t) -> row_ticker r = t) by apply Hticker.
    induction (frames t) as [|r l IHl]; [constructor|].
    inversion ND as [|? ? Hr ND']; subst. cbn [map]. constructor.
    + intros Hin. apply Hr. apply in_map_iff in Hin. destruct Hin as [x [[= Hd _] Hx]].
      rewrite <- Hd. now apply in_map.
    + apply IHl; [assumption|]. intros; apply Hown; now right.
  - apply IH; [assumption|]. intros; apply Hdates; now right.
  - intros [d t'] Hin Hin'. apply in_map_iff in Hin. destruct Hin as [r [[= _ Ht'] Hr]].
    apply Hticker in Hr. apply in_map_iff in Hin'. destruct Hin' as [r' [[= _ Ht''] Hr']].
    apply in_flat_map in Hr'. destruct Hr' as [t2 [Ht2 Hr']]. apply Hticker in Hr'.
    apply Ht. congruence.
Qed.

(** With one net volume per trade date and duplicate-free date range and
    price dates, the table has at most one record per (date, ticker). *)
Theorem table_keys_unique
  (trades : list TransactionEvent) (today : date)
  (log log' : list string) (table : list HoldingRow) :
  (forall t, NoDup (map fst (by_ticker_volume t))) ->
  (forall a b, NoDup (date_list a b)) ->
  (forall t, NoDup (map fst (close t))) ->
  build by_ticker_volume date_list close yf_actions trades today log = (Ok table, log') ->
  NoDup (map table_key table).
Proof.
  intros NDv NDp NDc H. apply build_Ok in H. destruct H as [first [rest [_ ->]]].
  rewrite map_map.
  apply (Permutation_NoDup
           (l := map (fun r => (row_date r, row_ticker r))
                     (flat_map (frame_of by_ticker_volume close yf_actions
                                         (date_list (ev_date first) today))
                               (sorted_set (map ev_ticker trades))))).
  - apply Permutation_map, Permutation_sym, sort_index_perm.
  - apply NoDup_keys_flat_map.
    + apply sorted_set_NoDup.
    + intros t r. apply frame_of_ticker.
    + intros t _. rewrite frame_of_dates by auto.
      apply sorted_NoDup, sorted_keys_sorted.
Qed.

End TableFacts.

Lemma table_sorted_by_date_then_ticker_witness :
  StronglySorted key_le (table_of scenario_two_tickers).
Proof.
  assert (H : Portfolio.build
                (Trades.by_ticker_volume [trade 1 "AAA" 100; trade 3 "BBB" 50])
                datehandler.date_list
                (fun _ => flat_price 12 [1; 2; 4]) (fun _ => Ok [])
                [trade 1 "AAA" 100; trade 3 "BBB" 50] 4 []
              = (Ok (table_of scenario_two_tickers), snd scenario_two_tickers))
    by (vm_compute; reflexivity).
  exact (table_sorted_by_date_then_ticker _ _ _ _ _ _ _ _ _ H).
Defined.

Lemma table_keys_unique_witness :
  NoDup (map table_key (table_of scenario_two_tickers)).
Proof.
  assert (H : Portfolio.build
                (Trades.by_ticker_volume [trade 1 "AAA" 100; trade 3 "BBB" 50])
                datehandler.date_list
                (fun _ => flat_price 12 [1; 2; 4]) (fun _ => Ok [])
                [trade 1 "AAA" 100; trade 3 "BBB" 50] 4 []
              = (Ok (table_of scenario_two_tickers), snd scenario_two_tickers))
    by (vm_compute; reflexivity).
  assert (NDc : forall t : string, NoDup (map fst (flat_price 12 [1; 2; 4])))
    by (intros t; distinct_dates).
  exact (table_keys_unique _ _ _ _ _ _ _ _ _
           (by_ticker_volume_NoDup _) date_list_NoDup NDc H).
Defined.

Section Assembly.
Import pd Portfolio.

Variable by_ticker_volume : string -> list (date * Qc).
Variable date_list : date -> date -> list date.
Variable close : string -> Series.
Variable yf_actions : string -> outcome (list Action).

Lemma build_raises (trades : list TransactionEvent) (today : date) (log : list string)
      (first : TransactionEvent) (rest : list TransactionEvent) (t : string) (e : exn) :
  trades = first :: rest ->
  In t (sorted_set (map ev_ticker trades)) ->
  yf_actions (t ++ ".AX")%string = Raise e -> e <> TypeError ->
  exists e' log',
    build by_ticker_volume date_list close yf_actions trades today log = (Raise e', log').
Proof.
  intros -> Hin Hyf Hne. unfold build.
  destruct (date_list (ev_date first) today) as [|d0 ds] eqn:Ep.
  - exists IndexError, log. reflexivity.
  - unfold bind at 1.
    destruct (for_tickers_raises by_ticker_volume close yf_actions (d0 :: ds) _ t e
                Hin Hyf Hne [] log) as [e' [log' Hf]].
    rewrite Hf. exists e', log'. reflexivity.
Qed.

(** [build] returns a table exactly when the ledger is not empty, the
    date range from its first date to today is not empty and no
    corporate-actions lookup of a ledger ticker fails with an error other
    than [TypeError]; on an empty ledger or an empty date range it raises
    [IndexError] before anything is looked up or printed. *)
Theorem build_returns_iff
  (trades : list TransactionEvent) (today : date) (log : list string) :
  ((exists table log',
      build by_ticker_volume date_list close yf_actions trades today log
      = (Ok table, log'))
   <->
   (exists first rest,
      trades = first :: rest /\
      date_list (ev_date first) today <> [] /\
      forall t e, In t (sorted_set (map ev_ticker trades)) ->
                  yf_actions (t ++ ".AX")%string = Raise e -> e = TypeError)) /\
  (trades = [] \/
   (exists first rest, trades = first :: rest /\ date_list (ev_date first) today = []) ->
   build by_ticker_volume date_list close yf_actions trades today log
   = (Raise IndexError, log)).
Proof.
  split; [split|].
  - intros [table [log' H]].
    destruct trades as [|first rest] eqn:Et; [discriminate H|].
    exists first, rest. split; [reflexivity|]. split.
    + intros Hp. unfold build in H. rewrite Hp in H. discriminate H.
    + intros t e Hin Hyf. destruct e as [| |n]; [reflexivity| |].
      * destruct (build_raises (first :: rest) today log first rest t IndexError
                    eq_refl Hin Hyf) as [e' [l' Hr]]; [discriminate|].
        rewrite Hr in H. discriminate H.
      * destruct (build_raises (first :: rest) today log first rest t (OtherError n)
                    eq_refl Hin Hyf) as [e' [l' Hr]]; [discriminate|].
        rewrite Hr in H. discriminate H.
  - intros [first [rest [Ht [Hp Hsoft]]]].
    destruct (build_soft by_ticker_volume date_list close yf_actions trades today log
                first rest Ht Hp Hsoft) as [log' H].
    eexists. exists log'. exact H.
  - intros [->|[first [rest [-> Hp]]]]; [reflexivity|].
    unfold build. now rewrite Hp.
Qed.

Lemma on_column_dates (f : list cell -> list cell) (s : Series) :
  (forall l, List.length (f l) = List.length l) ->
  map fst (on_column f s) = map fst s.
Proof.
  intros Hf. unfold on_column. apply map_fst_combine'. now rewrite Hf, !length_map.
Qed.

Lemma quantity_series_dates (vol : list (date * Qc)) (p_dates : list date) (d : date) :
  In d (map fst (quantity_series vol p_dates)) ->
  In d (map fst vol) \/ In d p_dates.
Proof.
  unfold quantity_series, dropna. intros H. apply in_map_iff in H.
  destruct H as [r [<- Hr]]. apply filter_In in Hr. destruct Hr as [Hr _].
  apply (in_map fst) in Hr. unfold daily_quantity in Hr.
  rewrite !on_column_dates in Hr
    by (intros; unfold ffill, cumsum;
        first [apply ffill_from_length|apply cumsum_from_length]).
  unfold align_volumes in Hr. rewrite map_map in Hr. cbn [fst] in Hr.
  apply in_map_iff in Hr. destruct Hr as [[[k oa] ob] [Hk Hin]]. cbn [fst] in Hk.
  apply merge_ordered_In in Hin. destruct Hin as [Hin _]. rewrite <- Hk.
  destruct Hin as [Hin|Hin]; [now left|right].
  now rewrite map_map, map_id in Hin.
Qed.

(** Nothing in the table is invented: every record belongs to a ticker
    of the ledger; its date is a trade date of that ticker, a date of the
    portfolio's date range or a date of that ticker's price series; and a
    defined price is the provider's price of that ticker on that date. *)
Theorem table_records_have_sources
  (trades : list TransactionEvent) (today : date)
  (log log' : list string) (table : list HoldingRow) :
  build by_ticker_volume date_list close yf_actions trades today log = (Ok table, log') ->
  exists first rest,
    trades = first :: rest /\
    forall r, In r table ->
      In (Ticker r) (map ev_ticker trades) /\
      (In (Date r) (map fst (by_ticker_volume (Ticker r))) \/
       In (Date r) (date_list (ev_date first) today) \/
       In (Date r) (map fst (close (Ticker r)))) /\
      (forall p, Close r = Some p -> In (Date r, Some p) (close (Ticker r))).
Proof.
  intros H. apply build_Ok in H. destruct H as [first [rest [Ht ->]]].
  exists first, rest. split; [assumption|].
  intros r Hr. apply in_map_iff in Hr. destruct Hr as [r0 [<- Hr0]].
  apply (proj1 (sort_index_In _ _)) in Hr0. apply in_flat_map in Hr0.
  destruct Hr0 as [t [Hticker Hr0]]. unfold frame_of in Hr0.
  apply in_map_iff in Hr0. destruct Hr0 as [[[d v] c] [<- Hrow]].
  cbn [assign_value with_ticker Date Ticker Close row_date row_ticker row_close fst snd].
  split; [now apply (proj1 (sorted_set_In _ _))|]. split.
  - unfold merge_close in Hrow. apply in_map_iff in Hrow.
    destruct Hrow as [[[k oa] ob] [[= <- _ _] Hin]].
    apply merge_ordered_In in Hin. destruct Hin as [[Hin|Hin] _].
    + rewrite adjusted_series_dates in Hin. apply quantity_series_dates in Hin. tauto.
    + tauto.
  - intros p ->. apply merge_close_In in Hrow. destruct Hrow as [_ Hp]. now apply Hp.
Qed.

(** Nothing is lost in the assembly: for every ticker of the ledger,
    each row of its (adjusted) quantity series and each row of its price
    series is found in the table under that date and ticker. *)
Theorem table_keeps_every_row
  (trades : list TransactionEvent) (today : date)
  (log log' : list string) (table : list HoldingRow) :
  build by_ticker_volume date_list close yf_actions trades today log = (Ok table, log') ->
  exists first rest,
    trades = first :: rest /\
    forall t, In t (map ev_ticker trades) ->
      (forall d v,
         In (d, v) (adjusted_series yf_actions
                      (quantity_series (by_ticker_volume t)
                                       (date_list (ev_date first) today)) t) ->
         exists r, In r table /\ Date r = d /\ Ticker r = t /\ Volume r = v) /\
      (forall d p,
         In (d, p) (close t) ->
         exists r, In r table /\ Date r = d /\ Ticker r = t /\ Close r = p).
Proof.
  intros H. apply build_Ok in H. destruct H as [first [rest [Ht ->]]].
  exists first, rest. split; [assumption|]. intros t Hticker.
  assert (Hframe : forall x,
             In x (merge_close
                     (adjusted_series yf_actions
                        (quantity_series (by_ticker_volume t)
                                         (date_list (ev_date first) today)) t)
                     (close t)) ->
             In (assign_value (with_ticker t x))
                (map assign_value
                   (sort_index
                      (flat_map (frame_of by_ticker_volume close yf_actions
                                          (date_list (ev_date first) today))
                                (sorted_set (map ev_ticker trades)))))).
  { intros x Hx. apply in_map, (proj2 (sort_index_In _ _)), in_flat_map.
    exists t. split; [now apply (proj2 (sorted_set_In _ _))|].
    unfold frame_of. now apply in_map. }
  split.
  - intros d v Hin.
    destruct (merge_ordered_keeps_left d v _ (close t) Hin) as [ob [Hm _]].
    exists (assign_value (with_ticker t (d, v, join_cell ob))).
    split; [|repeat split]. apply Hframe. unfold merge_close.
    apply in_map_iff. exists (d, Some v, ob). now split.
  - intros d p Hin.
    destruct (merge_ordered_keeps_right d p
                (adjusted_series yf_actions
                   (quantity_series (by_ticker_volume t)
                                    (date_list (ev_date first) today)) t)
                (close t) Hin) as [oa [Hm _]].
    exists (assign_value (with_ticker t (d, join_cell oa, p))).
    split; [|repeat split]. apply Hframe. unfold merge_close.
    apply in_map_iff. exists (d, oa, Some p). now split.
Qed.

Lemma stocksplits_lines (df adj : Series) (ticker : string) (log log' : list string) :
  stocksplits yf_actions df ticker log = (Ok adj, log') ->
  log' = log ++ lines_for yf_actions ticker.
Proof.
  unfold stocksplits, lines_for, bind, print, ret, raise, checking, went_wrong.
  destruct (yf_actions (ticker ++ ".AX")%string) as [a|[| |n]].
  - destruct (has_split a); intros [= _ <-]; reflexivity.
  - intros [= _ <-]. now rewrite <- app_assoc.
  - discriminate.
  - discriminate.
Qed.

Lemma for_tickers_lines (p_dates : list date) (tickers : list string) :
  forall (acc df : list TickerRow) (log log' : list string),
    for_tickers by_ticker_volume close yf_actions p_dates tickers acc log = (Ok df, log') ->
    log' = log ++ flat_map (lines_for yf_actions) tickers.
Proof.
  induction tickers as [|t ts IH]; intros acc df log log'.
  - cbn. intros [= _ <-]. now rewrite app_nil_r.
  - cbn [for_tickers flat_map]. unfold bind at 1, ticker_frame, bind at 1.
    destruct (stocksplits yf_actions _ t log) as [[adj|e] log1] eqn:Es;
      [|discriminate].
    apply stocksplits_lines in Es. subst log1. unfold ret at 1.
    intros H. apply IH in H. now rewrite H, <- app_assoc.
Qed.

(** A successful [build] prints, for each ticker of the ledger once and
    in sorted order, the line "Checking <ticker>" - followed by
    "Something went wrong!" exactly when the lookup of that ticker
    raised - and last of all "Portfolio successfully built". *)
Theorem build_prints
  (trades : list TransactionEvent) (today : date)
  (log log' : list string) (table : list HoldingRow) :
  build by_ticker_volume date_list close yf_actions trades today log = (Ok table, log') ->
  log' = log ++ flat_map (lines_for yf_actions) (sorted_set (map ev_ticker trades))
             ++ [built].
Proof.
  unfold build. destruct trades as [|first rest]; [discriminate|].
  destruct (date_list (ev_date first) today) as [|d0 ds]; [discriminate|].
  unfold bind at 1.
  destruct (for_tickers _ _ _ _ _ _ log) as [[df|e] log1] eqn:Ef; [|discriminate].
  apply for_tickers_lines in Ef. subst log1.
  unfold bind, print, ret, built. intros [= _ <-]. now rewrite <- app_assoc.
Qed.

End Assembly.

Lemma scenario_two_tickers_run :
  Portfolio.build
    (Trades.by_ticker_volume [trade 1 "AAA" 100; trade 3 "BBB" 50])
    datehandler.date_list
    (fun _ => flat_price 12 [1; 2; 4]) (fun _ => Ok [])
    [trade 1 "AAA" 100; trade 3 "BBB" 50] 4 []
  = (Ok (table_of scenario_two_tickers), snd scenario_two_tickers).
Proof. vm_compute. reflexivity. Qed.

Lemma scenario_type_error_run :
  Portfolio.build
    (Trades.by_ticker_volume [trade 1 "AAA" 100; trade 3 "BBB" 50])
    datehandler.date_list
    (fun _ => flat_price 12 [1; 2; 4]) type_error_for_first
    [trade 1 "AAA" 100; trade 3 "BBB" 50] 4 []
  = (Ok (table_of scenario_type_error), snd scenario_type_error).
Proof. vm_compute. reflexivity. Qed.

Lemma build_returns_iff_witness :
  exists table log',
    Portfolio.build
      (Trades.by_ticker_volume [trade 1 "AAA" 100; trade 3 "BBB" 50])
      datehandler.date_list
      (fun _ => flat_price 12 [1; 2; 4]) type_error_for_first
      [trade 1 "AAA" 100; trade 3 "BBB" 50] 4 []
    = (Ok table, log').
Proof.
  apply (proj1 (build_returns_iff
                  (Trades.by_ticker_volume [trade 1 "AAA" 100; trade 3 "BBB" 50])
                  datehandler.date_list
                  (fun _ => flat_price 12 [1; 2; 4]) type_error_for_first
                  [trade 1 "AAA" 100; trade 3 "BBB" 50] 4 [])).
  exists (trade 1 "AAA" 100), [trade 3 "BBB" 50].
  split; [reflexivity|]. split.
  - vm_compute. discriminate.
  - intros t e Hin. vm_compute in Hin. destruct Hin as [<-|[<-|[]]].
    + vm_compute. intros [= <-]. reflexivity.
    + vm_compute. discriminate.
Defined.

Lemma table_records_have_sources_witness :
  Forall (fun r => In (Ticker r) ["AAA"; "BBB"]%string) (table_of scenario_two_tickers).
Proof.
  destruct (table_records_have_sources _ _ _ _ _ _ _ _ _ scenario_two_tickers_run)
    as [first [rest [_ H]]].
  apply Forall_forall. intros r Hr. destruct (H r Hr) as [Hticker _]. exact Hticker.
Defined.

Lemma table_keeps_every_row_witness :
  exists r, In r (table_of scenario_two_tickers) /\
            Date r = 2 /\ Ticker r = "BBB"%string /\ Close r = Some (Z2Qc 12).
Proof.
  destruct (table_keeps_every_row _ _ _ _ _ _ _ _ _ scenario_two_tickers_run)
    as [first [rest [_ H]]].
  destruct (H "BBB"%string) as [_ Hprice].
  - right. left. reflexivity.
  - apply (Hprice 2 (Some (Z2Qc 12))). right. left. reflexivity.
Defined.

Lemma build_prints_witness :
  snd scenario_type_error
  = [] ++ flat_map (lines_for type_error_for_first)
                   (Portfolio.sorted_set
                      (map ev_ticker [trade 1 "AAA" 100; trade 3 "BBB" 50]))
       ++ [built].
Proof.
  exact (build_prints _ _ _ _ _ _ _ _ _ scenario_type_error_run).
Defined.

(** ** Forward fill over the keys of an outer join *)

Section ForwardFill.
Context {A : Type}.
Variable vs : list (date * A).
Hypothesis vs_sorted : StronglySorted Z.lt (map fst vs).

Lemma last_opt_app (l : list A) (a : A) : last_opt (l ++ [a]) = Some a.
Proof.
  induction l as [|x l IH]; [reflexivity|].
  cbn [app last_opt]. destruct (l ++ [a]) eqn:E; [|exact IH].
  destruct l; discriminate E.
Qed.

Lemma vs_distinct : NoDup (map fst vs).
Proof. now apply sorted_NoDup. Qed.

Lemma upto_split (k : date) :
  map snd (filter (fun r => fst r <=? k) vs)
  = map snd (filter (fun r => fst r <? k) vs) ++ pd.rows_at k vs.
Proof.
  unfold pd.rows_at. clear - vs_sorted.
  induction vs as [|r l IH]; [reflexivity|].
  cbn [map] in vs_sorted. apply StronglySorted_inv in vs_sorted.
  destruct vs_sorted as [Hs Hall]. rewrite Forall_forall in Hall.
  cbn [filter]. destruct (Z.compare_spec (fst r) k) as [E|E|E].
  - assert (Hnone : forall f : date * A -> bool,
               (forall x, In x l -> k < fst x -> f x = false) -> filter f l = []).
    { intros f Hf. apply filter_none. intros x Hx. apply Hf; [assumption|].
      rewrite <- E. apply Hall. now apply in_map. }
    rewrite E, Z.leb_refl, Z.ltb_irrefl, Z.eqb_refl.
    rewrite !Hnone; [reflexivity| | |].
    + intros x _ Hx. apply Z.eqb_neq. lia.
    + intros x _ Hx. apply Z.ltb_ge. lia.
    + intros x _ Hx. apply Z.leb_gt. lia.
  - replace (fst r <=? k) with true by (symmetry; apply Z.leb_le; lia).
    replace (fst r <? k) with true by (symmetry; apply Z.ltb_lt; lia).
    replace (fst r =? k) with false by (symmetry; apply Z.eqb_neq; lia).
    cbn [map app]. f_equal. now apply IH.
  - replace (fst r <=? k) with false by (symmetry; apply Z.leb_gt; lia).
    replace (fst r <? k) with false by (symmetry; apply Z.ltb_ge; lia).
    replace (fst r =? k) with false by (symmetry; apply Z.eqb_neq; lia).
    now apply IH.
Qed.

Lemma ffill_lookup (ks : list date) :
  StronglySorted Z.lt ks ->
  (forall r, In r vs -> below ks (fst r) = true \/ In (fst r) ks) ->
  Plot.ffill_indexer
    (last_opt (map snd (filter (fun r => below ks (fst r)) vs)))
    (map (fun k => lookup k vs) ks)
  = map (last_upto vs) ks.
Proof.
  induction 1 as [|k ks Hs IH Hall]; intros Hinv; [reflexivity|].
  rewrite Forall_forall in Hall.
  assert (Hinv' : forall r, In r vs -> below ks (fst r) = true \/ In (fst r) ks).
  { intros r Hr. destruct (Hinv r Hr) as [Hb|[He|Hi]].
    - left. rewrite below_cons in Hb. now apply andb_true_iff in Hb.
    - left. apply below_true. intros k' Hk'. rewrite <- He. now apply Hall.
    - now right. }
  assert (Hnext : filter (fun r => below ks (fst r)) vs
                  = filter (fun r => fst r <=? k) vs).
  { apply filter_ext_in. intros r Hr. cbv beta.
    destruct (fst r <=? k) eqn:E.
    - apply Z.leb_le in E. apply below_true. intros k' Hk'. apply Hall in Hk'. lia.
    - apply Z.leb_gt in E. destruct (below ks (fst r)) eqn:Hb; [|reflexivity].
      destruct (Hinv r Hr) as [Hb'|[He|Hi]].
      + rewrite below_cons in Hb'. apply andb_true_iff in Hb'.
        destruct Hb' as [Hb' _]. apply Z.ltb_lt in Hb'. lia.
      + lia.
      + rewrite below_true in Hb. apply Hb in Hi. lia. }
  assert (Hprev : filter (fun r => below (k :: ks) (fst r)) vs
                  = filter (fun r => fst r <? k) vs).
  { apply filter_ext_in. intros r Hr. cbv beta. rewrite below_cons.
    destruct (fst r <? k) eqn:E; [|reflexivity]. simpl.
    apply Z.ltb_lt in E. apply below_true. intros k' Hk'. apply Hall in Hk'. lia. }
  specialize (IH Hinv'). rewrite Hnext in IH. rewrite Hprev.
  cbn [map]. unfold last_upto at 1. rewrite upto_split in IH |- *.
  rewrite (rows_at_lookup k vs vs_distinct) in IH |- *.
  destruct (lookup k vs) as [a|] eqn:Ea; cbn [Plot.ffill_indexer].
  - rewrite last_opt_app in IH |- *. f_equal. exact IH.
  - rewrite app_nil_r in IH |- *. f_equal. exact IH.
Qed.

Lemma ffill_lookup_all (ks : list date) :
  StronglySorted Z.lt ks ->
  (forall r, In r vs -> In (fst r) ks) ->
  Plot.ffill_indexer None (map (fun k => lookup k vs) ks) = map (last_upto vs) ks.
Proof.
  intros Hs Hin.
  assert (Hnone : filter (fun r => below ks (fst r)) vs = []).
  { apply filter_none. intros r Hr. destruct (below ks (fst r)) eqn:Hb; [|reflexivity].
    rewrite below_true in Hb. specialize (Hin r Hr). apply Hb in Hin. lia. }
  pose proof (ffill_lookup ks Hs (fun r Hr => or_intror (Hin r Hr))) as H.
  now rewrite Hnone in H.
Qed.

Lemma last_opt_In {B} (l : list B) (x : B) : last_opt l = Some x -> In x l.
Proof.
  induction l as [|y l IH]; [discriminate|]. cbn [last_opt].
  destruct l as [|z l]; [intros [= ->]; now left|]. intros H. right. now apply IH.
Qed.

Lemma last_opt_max (l : list (date * A)) (x : date * A) :
  StronglySorted Z.lt (map fst l) -> last_opt l = Some x ->
  forall y, In y l -> fst y <= fst x.
Proof.
  induction l as [|z l IH]; [discriminate|]. cbn [map last_opt]. intros Hs Hlast.
  apply StronglySorted_inv in Hs. destruct Hs as [Hs Hall].
  rewrite Forall_forall in Hall.
  destruct l as [|z' l].
  - injection Hlast as <-. intros y [<-|[]]. lia.
  - intros y [<-|Hy].
    + apply Z.lt_le_incl, Hall. apply in_map. now apply last_opt_In.
    + now apply IH.
Qed.

Lemma last_opt_map {B C} (f : B -> C) (l : list B) :
  last_opt (map f l) = option_map f (last_opt l).
Proof.
  induction l as [|x l IH]; [reflexivity|]. cbn [map last_opt].
  destruct l; [reflexivity|exact IH].
Qed.

(** The entry in force on [d] is that of the greatest date up to [d]. *)
Lemma last_upto_Some (d : date) (a : A) :
  last_upto vs d = Some a ->
  exists d', In (d', a) vs /\ d' <= d /\
             forall r, In r vs -> fst r <= d -> fst r <= d'.
Proof.
  unfold last_upto. rewrite last_opt_map.
  destruct (last_opt (filter (fun r => fst r <=? d) vs)) as [[d' a']|] eqn:E;
    [|discriminate].
  intros [= <-]. pose proof (last_opt_In _ _ E) as Hin.
  apply filter_In in Hin. destruct Hin as [Hin Hle]. cbn [fst] in Hle.
  apply Z.leb_le in Hle. exists d'. split; [assumption|]. split; [assumption|].
  intros r Hr Hrd.
  apply (last_opt_max (filter (fun r => fst r <=? d) vs) (d', a')); [|assumption|].
  - clear - vs_sorted. induction vs as [|x l IH]; [constructor|].
    cbn [map] in vs_sorted. apply StronglySorted_inv in vs_sorted.
    destruct vs_sorted as [Hs Hall]. cbn [filter].
    destruct (fst x <=? d); [|now apply IH]. cbn [map]. constructor; [now apply IH|].
    rewrite Forall_forall in *. intros y Hy. apply Hall. apply in_map_iff in Hy.
    destruct Hy as [z [<- Hz]]. apply filter_In in Hz. apply in_map. now destruct Hz.
  - apply filter_In. split; [assumption|]. now apply Z.leb_le.
Qed.

Lemma last_upto_None (d : date) :
  last_upto vs d = None -> forall r, In r vs -> d < fst r.
Proof.
  unfold last_upto. rewrite last_opt_map. intros H r Hr.
  destruct (Z.lt_ge_cases d (fst r)) as [|Hle]; [assumption|].
  assert (Hin : In r (filter (fun r => fst r <=? d) vs)).
  { apply filter_In. split; [assumption|]. now apply Z.leb_le. }
  destruct (filter (fun r => fst r <=? d) vs) as [|x l] eqn:E; [contradiction|].
  exfalso. clear - H. revert x H. induction l as [|y l IH]; intros x H.
  - discriminate H.
  - cbn [last_opt] in H. cbn [last_opt] in IH. apply (IH y). exact H.
Qed.

End ForwardFill.

(** ** The frames merged by [plot] *)

Section PlotFrames.
Import pd.

Lemma skipna_defined {E} (w : E -> Qc) (l : list E) :
  Plot.skipna (map (fun e => Some (w e)) l) = map w l.
Proof. induction l as [|e l IH]; [reflexivity|]. cbn. now f_equal. Qed.

Lemma groupby_sum_dates {R} (key : R -> date) (col : R -> cell) (rows : list R) :
  map fst (Plot.groupby_sum key col rows) = sorted_keys (map key rows).
Proof. unfold Plot.groupby_sum. rewrite map_map. apply map_id. Qed.

Lemma cumsum_sorted (g : date -> Qc) (ks : list date) :
  StronglySorted Z.lt ks ->
  forall acc : Qc,
    cumsum_from acc (map (fun k => Some (g k)) ks)
    = map (fun k => Some (acc + sumv (map g (filter (fun j => j <=? k) ks)))%Qc) ks.
Proof.
  induction 1 as [|k0 t Hs IH Hall]; intros acc; [reflexivity|].
  rewrite Forall_forall in Hall.
  cbn [map cumsum_from filter]. rewrite Z.leb_refl.
  assert (Hnone : filter (fun j => j <=? k0) t = []).
  { apply filter_none. intros j Hj. apply Z.leb_gt. now apply Hall. }
  rewrite Hnone. f_equal.
  - f_equal. cbn. ring.
  - rewrite IH. apply map_ext_in. intros k Hk.
    replace (k0 <=? k) with true
      by (symmetry; apply Z.leb_le, Z.lt_le_incl; now apply Hall).
    f_equal. cbn [map sumv fold_right].
    fold (sumv (map g (filter (fun j => j <=? k) t))). ring.
Qed.

Lemma group_sum_by {E} (key : E -> date) (w : E -> Qc) (events : list E) :
  forall ks : list date,
    NoDup ks ->
    (forall e, In e events -> In (key e) ks) ->
    sumv (map (fun k => sumv (map w (filter (fun e => key e =? k) events))) ks)
    = sumv (map w events).
Proof.
  induction events as [|e events IH]; intros ks ND Hall.
  - apply sumv_null. reflexivity.
  - rewrite (map_ext
               (fun k => sumv (map w (filter (fun e0 => key e0 =? k) (e :: events))))
               (fun k => ((if key e =? k then w e else 0%Qc)
                          + sumv (map w (filter (fun e0 => key e0 =? k) events)))%Qc)).
    + rewrite sumv_pointwise, sumv_indicator, IH; try assumption.
      * reflexivity.
      * intros e' He'. apply Hall. now right.
      * apply Hall. now left.
    + intros k. cbn [filter]. destruct (key e =? k); cbn [map sumv fold_right].
      * reflexivity.
      * fold (sumv (map w (filter (fun e0 => key e0 =? k) events))). ring.
Qed.

Lemma filter_on_upto {E} (key : E -> date) (events : list E) (j k : date) :
  j <= k ->
  filter (fun e => key e =? j) (filter (fun e => key e <=? k) events)
  = filter (fun e => key e =? j) events.
Proof.
  intros Hjk. induction events as [|e l IH]; [reflexivity|]. cbn [filter].
  destruct (key e <=? k) eqn:E1; cbn [filter].
  - now rewrite IH.
  - rewrite IH. apply Z.leb_gt in E1.
    replace (key e =? j) with false by (symmetry; apply Z.eqb_neq; lia). reflexivity.
Qed.

(** The running cost, date by date. *)
Lemma cost_frame_rows (trades : list TransactionEvent) :
  cost_frame trades
  = map (fun k => (k, Some (sumv (map paid (filter (fun e => ev_date e <=? k) trades)))))
        (sorted_keys (map ev_date trades)).
Proof.
  unfold cost_frame, Plot.groupby_sum.
  rewrite (on_column_keyed cumsum
             (fun d => Some (sumv (Plot.skipna
                                     (map (fun e => Some (paid e))
                                          (filter (fun r => ev_date r =? d) trades)))))).
  unfold cumsum.
  rewrite (cumsum_sorted
             (fun d => sumv (Plot.skipna
                               (map (fun e => Some (paid e))
                                    (filter (fun r => ev_date r =? d) trades))))
             _ (sorted_keys_sorted _)).
  rewrite combine_map_keys. apply map_ext_in. intros k Hk. do 2 f_equal.
  rewrite Qcplus_0_l.
  rewrite <- (group_sum_by ev_date paid (filter (fun e => ev_date e <=? k) trades)
                (filter (fun j => j <=? k) (sorted_keys (map ev_date trades)))).
  - f_equal. apply map_ext_in. intros j Hj. apply filter_In in Hj.
    destruct Hj as [_ Hj]. apply Z.leb_le in Hj.
    now rewrite skipna_defined, filter_on_upto.
  - apply NoDup_filter, sorted_NoDup, sorted_keys_sorted.
  - intros e He. apply filter_In in He. destruct He as [He Hle].
    apply filter_In. split; [|assumption].
    apply (proj2 (sorted_keys_In _ _)). now apply in_map.
Qed.

Lemma cost_frame_sorted (trades : list TransactionEvent) :
  StronglySorted Z.lt (map fst (cost_frame trades)).
Proof.
  rewrite cost_frame_rows, map_map. cbn [fst]. rewrite map_id.
  apply sorted_keys_sorted.
Qed.

Lemma value_frame_sorted (holdings : list HoldingRow) :
  StronglySorted Z.lt (map fst (value_frame holdings)).
Proof.
  unfold value_frame, Plot.groupby_sum. rewrite map_fst_filter_keyed.
  apply StronglySorted_filter, sorted_keys_sorted.
Qed.

Lemma value_frame_In (holdings : list HoldingRow) (d : date) (c : cell) :
  In (d, c) (value_frame holdings)
  <-> In d (map Date holdings) /\ c = Some (daily_value holdings d) /\
      (0 < daily_value holdings d)%Qc.
Proof.
  unfold value_frame, Plot.groupby_sum. rewrite filter_In. split.
  - intros [Hin Hpos]. apply in_map_iff in Hin. destruct Hin as [k [[= <- <-] Hk]].
    cbn [snd Plot.positive] in Hpos.
    apply (proj1 (sorted_keys_In _ _)) in Hk. apply Qc_ltb_lt in Hpos. now repeat split.
  - intros [Hd [-> Hpos]]. split.
    + apply in_map_iff. exists d. split; [reflexivity|].
      now apply (proj2 (sorted_keys_In _ _)).
    + cbn [snd Plot.positive]. now apply Qc_ltb_lt.
Qed.

Lemma combine_keyed2 {K X Y} (f : K -> X) (g : K -> Y) (ks : list K) :
  combine (combine ks (map f ks)) (map g ks) = map (fun k => (k, f k, g k)) ks.
Proof. induction ks; cbn; congruence. Qed.

(** The rows of [plot_df], one per date of either frame. *)
Lemma plot_df_rows (holdings : list HoldingRow) (trades : list TransactionEvent) :
  Plot.plot_df holdings trades
  = map (fun k =>
           let value := Plot.join_cell (last_upto (value_frame holdings) k) in
           let cost := Plot.join_cell (last_upto (cost_frame trades) k) in
           mkPlotRow k value cost (Plot.cell_sub value cost)
                     (Plot.truediv (Plot.cell_sub value cost) cost))
        (sorted_keys (map fst (value_frame holdings) ++ map fst (cost_frame trades))).
Proof.
  unfold Plot.plot_df, Plot.merge_ordered_ffill.
  change (filter (fun r => Plot.positive (snd r)) (Plot.groupby_sum Date Value holdings))
    with (value_frame holdings).
  change (on_column cumsum
            (Plot.groupby_sum ev_date
               (fun e => Some (ev_volume e * ev_price e)%Qc) trades))
    with (cost_frame trades).
  rewrite (merge_ordered_keyed (value_frame holdings) (cost_frame trades))
    by (apply sorted_NoDup; first [apply value_frame_sorted|apply cost_frame_sorted]).
  set (ks := sorted_keys (map fst (value_frame holdings) ++ map fst (cost_frame trades))).
  rewrite !map_map. cbn [fst snd]. rewrite map_id.
  rewrite (ffill_lookup_all (value_frame holdings) (value_frame_sorted holdings) ks),
          (ffill_lookup_all (cost_frame trades) (cost_frame_sorted trades) ks).
  - rewrite combine_keyed2, map_map. reflexivity.
  - apply sorted_keys_sorted.
  - intros r Hr. apply (proj2 (sorted_keys_In _ _)), in_or_app. right. now apply in_map.
  - apply sorted_keys_sorted.
  - intros r Hr. apply (proj2 (sorted_keys_In _ _)), in_or_app. left. now apply in_map.
Qed.

End PlotFrames.

(** ** [plot]: value, cost and profit by date *)

Section PlotFacts.
Import pd.

Variable holdings : list HoldingRow.
Variable trades : list TransactionEvent.

Lemma cost_frame_has (e : TransactionEvent) :
  In e trades ->
  exists c, In (ev_date e, c) (cost_frame trades).
Proof.
  intros He. rewrite cost_frame_rows. eexists. apply in_map_iff.
  exists (ev_date e). split; [reflexivity|].
  apply (proj2 (sorted_keys_In _ _)). now apply in_map.
Qed.

Lemma cost_in_force (d : date) :
  Plot.join_cell (last_upto (cost_frame trades) d) = cost_upto trades d.
Proof.
  unfold cost_upto.
  destruct (last_upto (cost_frame trades) d) as [c|] eqn:E.
  - destruct (last_upto_Some _ (cost_frame_sorted trades) d c E)
      as [d' [Hin [Hle Hmax]]].
    assert (Hsame : filter (fun e => ev_date e <=? d') trades
                    = filter (fun e => ev_date e <=? d) trades).
    { apply filter_ext_in. intros e He. cbv beta.
      destruct (ev_date e <=? d) eqn:E1.
      - apply Z.leb_le in E1. apply Z.leb_le.
        destruct (cost_frame_has e He) as [c' Hc'].
        exact (Hmax _ Hc' E1).
      - apply Z.leb_gt in E1. apply Z.leb_gt. lia. }
    rewrite cost_frame_rows in Hin. apply in_map_iff in Hin.
    destruct Hin as [k [[= -> <-] Hk]]. cbn [Plot.join_cell]. rewrite Hsame.
    apply (proj1 (sorted_keys_In _ _)), in_map_iff in Hk.
    destruct Hk as [e [He Hin]]. symmetry. apply (total_nonempty _ (paid e)).
    apply in_map, filter_In. split; [assumption|]. apply Z.leb_le. lia.
  - cbn [Plot.join_cell]. rewrite filter_none; [reflexivity|].
    intros e He. apply Z.leb_gt. destruct (cost_frame_has e He) as [c Hc].
    exact (last_upto_None _ d E _ Hc).
Qed.

Lemma value_in_force (d : date) :
  match Plot.join_cell (last_upto (value_frame holdings) d) with
  | Some v =>
      (0 < v)%Qc /\
      exists d', d' <= d /\ In d' (map Date holdings) /\
                 v = daily_value holdings d' /\
                 forall d'', In d'' (map Date holdings) ->
                             (0 < daily_value holdings d'')%Qc ->
                             d'' <= d -> d'' <= d'
  | None =>
      forall d', In d' (map Date holdings) ->
                 (0 < daily_value holdings d')%Qc -> d < d'
  end.
Proof.
  destruct (last_upto (value_frame holdings) d) as [c|] eqn:E.
  - destruct (last_upto_Some _ (value_frame_sorted holdings) d c E)
      as [d' [Hin [Hle Hmax]]].
    apply value_frame_In in Hin. destruct Hin as [Hd' [-> Hpos]].
    cbn [Plot.join_cell]. split; [assumption|]. exists d'. repeat split; try assumption.
    intros d'' Hd'' Hpos'' Hle''.
    apply (Hmax (d'', Some (daily_value holdings d''))); [|assumption].
    apply value_frame_In. now repeat split.
  - cbn [Plot.join_cell]. intros d' Hd' Hpos.
    apply (last_upto_None _ d E (d', Some (daily_value holdings d'))).
    apply value_frame_In. now repeat split.
Qed.

(** The frame of [plot] has one row per date that is a trade date or a
    date on which the table's total value is positive, in strictly
    increasing date order. *)
Theorem plot_dates :
  StronglySorted Z.lt (map plot_date (Plot.plot_df holdings trades)) /\
  forall d,
    In d (map plot_date (Plot.plot_df holdings trades))
    <-> In d (map ev_date trades) \/
        (In d (map Date holdings) /\ (0 < daily_value holdings d)%Qc).
Proof.
  rewrite plot_df_rows, map_map. cbn [plot_date]. rewrite map_id.
  split; [apply sorted_keys_sorted|].
  intros d. rewrite sorted_keys_In, in_app_iff. split.
  - intros [H|H].
    + right. apply in_map_iff in H. destruct H as [[k c] [<- H]].
      apply value_frame_In in H. now destruct H as [H1 [_ H2]].
    + left. rewrite cost_frame_rows, map_map in H. cbn [fst] in H.
      rewrite map_id in H. now apply (proj1 (sorted_keys_In _ _)).
  - intros [H|[H1 H2]].
    + right. rewrite cost_frame_rows, map_map. cbn [fst]. rewrite map_id.
      now apply (proj2 (sorted_keys_In _ _)).
    + left. apply in_map_iff. exists (d, Some (daily_value holdings d)).
      split; [reflexivity|]. apply value_frame_In. now repeat split.
Qed.

(** On every row of the frame the cost is the amount paid (volume times
    effective price) for all trades dated up to and including the row's
    date, and is undefined when there is no such trade. *)
Theorem plot_cost_is_running_cost :
  Forall (fun r => plot_cost r = cost_upto trades (plot_date r))
         (Plot.plot_df holdings trades).
Proof.
  rewrite plot_df_rows. apply Forall_forall. intros r Hr.
  apply in_map_iff in Hr. destruct Hr as [k [<- _]]. cbn [plot_cost plot_date].
  apply cost_in_force.
Qed.

(** On every row of the frame a defined value is strictly positive: it
    is the table's total value of the latest date, up to the row's date,
    on which that total is positive; the value is undefined when there is
    no such date.  A day whose total is zero or negative therefore shows
    the last positive total, not its own. *)
Theorem plot_value_is_last_positive_total :
  Forall (fun r =>
            match plot_value r with
            | Some v =>
                (0 < v)%Qc /\
                exists d', d' <= plot_date r /\ In d' (map Date holdings) /\
                           v = daily_value holdings d' /\
                           forall d'', In d'' (map Date holdings) ->
                                       (0 < daily_value holdings d'')%Qc ->
                                       d'' <= plot_date r -> d'' <= d'
            | None =>
                forall d', In d' (map Date holdings) ->
                           (0 < daily_value holdings d')%Qc -> plot_date r < d'
            end)
         (Plot.plot_df holdings trades).
Proof.
  rewrite plot_df_rows. apply Forall_forall. intros r Hr.
  apply in_map_iff in Hr. destruct Hr as [k [<- _]]. cbn [plot_value plot_date].
  apply value_in_force.
Qed.

(** Profit and percentage of every row: the profit is value minus cost
    where both are defined; the percentage is profit over cost where the
    cost is not zero, plus infinity where the cost is zero and a value is
    known, and NaN where value or cost is undefined - never an error and
    never minus infinity. *)
Theorem plot_profit_columns :
  Forall (fun r =>
            pl_line r = Plot.cell_sub (plot_value r) (plot_cost r) /\
            pl_pct r =
              match plot_value r, plot_cost r with
              | Some v, Some c =>
                  if Qc_eqb c 0 then XInf false else XFin ((v - c) / c)%Qc
              | _, _ => XNaN
              end)
         (Plot.plot_df holdings trades).
Proof.
  rewrite plot_df_rows. apply Forall_forall. intros r Hr.
  apply in_map_iff in Hr. destruct Hr as [k [<- _]].
  cbn [pl_line pl_pct plot_value plot_cost]. split; [reflexivity|].
  pose proof (value_in_force k) as Hv.
  destruct (Plot.join_cell (last_upto (value_frame holdings) k)) as [v|];
    [|reflexivity].
  destruct Hv as [Hpos _].
  destruct (Plot.join_cell (last_upto (cost_frame trades) k)) as [c|];
    [|reflexivity].
  cbn [Plot.cell_sub Plot.truediv].
  destruct (Qc_eqb c 0) eqn:Ec; [|reflexivity].
  apply Qc_eqb_eq in Ec. subst c.
  assert (Hv : (v - 0)%Qc = v) by ring. rewrite Hv.
  assert (Hnz : Qc_eqb v 0 = false).
  { destruct (Qc_eqb v 0) eqn:E; [|reflexivity].
    apply Qc_eqb_eq in E. subst v. discriminate Hpos. }
  rewrite Hnz. f_equal.
  destruct (Qc_ltb v 0) eqn:E; [|reflexivity].
  apply Qc_ltb_lt in E. exfalso. exact (Qclt_not_le _ _ E (Qclt_le_weak _ _ Hpos)).
Qed.

(** Called on a non-empty ledger, [plot] returns the frame, the same
    whatever the view, exactly for the views "default", "pl" and
    "pl_pct", drawing the columns of that view; with any other view it
    raises [UnboundLocalError]. *)
Theorem plot_views (view : string) :
  trades <> [] ->
  match Plot.plot holdings trades view with
  | Ok res =>
      frame res = Plot.plot_df holdings trades /\
      ((view = "default" /\ drawn res = ["Value"; "Cost"]) \/
       (view = "pl" /\ drawn res = ["pl_line"]) \/
       (view = "pl_pct" /\ drawn res = ["pl_pct"]))%string
  | Raise e =>
      e = OtherError "UnboundLocalError" /\
      view <> "default"%string /\ view <> "pl"%string /\ view <> "pl_pct"%string
  end.
Proof.
  intros _. unfold Plot.plot.
  destruct (String.eqb_spec view "default") as [->|H1].
  - split; [reflexivity|]. left. now split.
  - destruct (String.eqb_spec view "pl") as [->|H2].
    + split; [reflexivity|]. right. left. now split.
    + destruct (String.eqb_spec view "pl_pct") as [->|H3].
      * split; [reflexivity|]. right. right. now split.
      * now repeat split.
Qed.

End PlotFacts.

Lemma plot_dates_witness :
  In 5 (map plot_date (Plot.plot_df plot_holdings plot_trades)).
Proof.
  apply (proj2 (plot_dates plot_holdings plot_trades)). right. split.
  - vm_compute. tauto.
  - apply Qc_ltb_lt. vm_compute. reflexivity.
Defined.

Lemma plot_cost_is_running_cost_witness :
  Forall (fun r => plot_cost r = cost_upto plot_trades (plot_date r))
         (Plot.plot_df plot_holdings plot_trades).
Proof. exact (plot_cost_is_running_cost plot_holdings plot_trades). Defined.

Lemma plot_value_is_last_positive_total_witness :
  Forall (fun r => forall v, plot_value r = Some v -> (0 < v)%Qc)
         (Plot.plot_df plot_holdings plot_trades).
Proof.
  pose proof (plot_value_is_last_positive_total plot_holdings plot_trades) as H.
  rewrite Forall_forall in H. apply Forall_forall. intros r Hr v Hv.
  specialize (H r Hr). rewrite Hv in H. now destruct H.
Defined.

Lemma plot_profit_columns_witness :
  Forall (fun r => pl_line r = Plot.cell_sub (plot_value r) (plot_cost r))
         (Plot.plot_df plot_holdings plot_trades).
Proof.
  pose proof (plot_profit_columns plot_holdings plot_trades) as H.
  rewrite Forall_forall in H. apply Forall_forall. intros r Hr.
  now destruct (H r Hr).
Defined.

Lemma split_factor_found (df_actions : list Action) (d : date) :
  split_factor df_actions d = 1%Qc \/
  exists a, In a df_actions /\ act_date a = d /\ Stock_Splits a <> 0%Qc /\
            split_factor df_actions d = Stock_Splits a.
Proof.
  unfold split_factor.
  destruct (find (fun a => act_date a =? d) df_actions) as [a|] eqn:E; [|now left].
  apply find_some in E. destruct E as [Hin Hd]. apply Z.eqb_eq in Hd.
  destruct (Qc_eqb (Stock_Splits a) 0) eqn:Ez; [now left|].
  right. exists a. repeat split; try assumption. now apply Qc_eqb_neq.
Qed.

Lemma through_In (d x : date) (l : list date) : In x (through d l) -> In x l.
Proof.
  induction l as [|e l IH]; [contradiction|]. cbn [through].
  destruct (e =? d); intros [H|H]; try (now left); try contradiction.
  right. now apply IH.
Qed.

Lemma from_date_In (s x : date) (l : list date) : In x (from_date s l) -> In x l.
Proof.
  induction l as [|e l IH]; [contradiction|]. cbn [from_date].
  destruct (e =? s); [tauto|]. intros H. right. now apply IH.
Qed.

(** Splits announced on dates that are not dates of the series - such as
    the splits of the years before the first trade - never rescale it:
    with a positive split announced somewhere but none on a date of the
    series, each quantity is only rounded up (and a zero quantity made
    undefined). *)
Theorem splits_off_the_series_only_round
  (yf_actions : string -> outcome (list Action))
  (df : pd.Series) (ticker : string) (log : list string) (df_actions : list Action) :
  yf_actions (ticker ++ ".AX")%string = Ok df_actions ->
  NoDup (map fst df) ->
  NoDup (map act_date df_actions) ->
  Portfolio.has_split df_actions = true ->
  (forall a, In a df_actions -> In (act_date a) (map fst df) -> Stock_Splits a = 0%Qc) ->
  fst (Portfolio.stocksplits yf_actions df ticker log)
  = Ok (map (fun r => (fst r, option_map ceilQc (replace0 (snd r)))) df).
Proof.
  intros Hyf _ _ Hsplit Hoff.
  rewrite (stocksplits_fetched yf_actions df ticker log df_actions Hyf), Hsplit.
  cbn [fst]. rewrite split_adjust_rows. f_equal. apply map_ext_in. intros r Hr.
  unfold adjusted_row. f_equal.
  destruct (replace0 (snd r)) as [q|]; [|reflexivity]. cbn [option_map]. do 2 f_equal.
  assert (Hone : cumulative_factor df df_actions (fst r) = 1%Qc).
  { unfold cumulative_factor, held_dates.
    destruct (first_held df) as [s|]; [|reflexivity].
    assert (Hprod : forall l, (forall e, In e l -> In e (map fst df)) ->
                              prodv (map (split_factor df_actions) l) = 1%Qc).
    { induction l as [|e l IH]; intros Hl; [reflexivity|].
      cbn [map prodv fold_right]. fold (prodv (map (split_factor df_actions) l)).
      rewrite IH by (intros; apply Hl; now right).
      destruct (split_factor_found df_actions e) as [->|[a [Ha [Hd [Hnz _]]]]].
      - apply Qcmult_1_l.
      - exfalso. apply Hnz. apply Hoff; [assumption|]. rewrite Hd. apply Hl. now left. }
    apply Hprod. intros e He. now apply through_In, from_date_In in He. }
  rewrite Hone. apply Qcmult_1_r.
Qed.

Lemma splits_off_the_series_only_round_witness :
  let df := [(5, Some (Z2Qc 100)); (6, Some (Q2Qc (1 # 2)))] in
  let df_actions := [mkAction 1 0%Qc (Z2Qc 2)] in
  fst (Portfolio.stocksplits (fun _ => Ok df_actions) df "ABC" [])
  = Ok (map (fun r => (fst r, option_map ceilQc (replace0 (snd r)))) df).
Proof.
  intros df df_actions.
  apply (splits_off_the_series_only_round (fun _ => Ok df_actions) df "ABC" []
           df_actions eq_refl).
  - distinct_dates.
  - distinct_dates.
  - reflexivity.
  - intros a [<-|[]] [H|[H|[]]]; discriminate H.
Defined.

Lemma plot_views_witness :
  Plot.plot plot_holdings plot_trades "profit" = Raise (OtherError "UnboundLocalError").
Proof.
  assert (Hne : plot_trades <> []) by discriminate.
  pose proof (plot_views plot_holdings plot_trades "profit" Hne) as H.
  destruct (Plot.plot plot_holdings plot_trades "profit") as [res|e].
  - destruct H as [_ [[H _]|[[H _]|[H _]]]]; discriminate H.
  - destruct H as [-> _]. reflexivity.
Defined.
